(** * The chunked CSV-to-table loader of the Genetic Data Lake

    A shallow embedding of [etl_load_csvs.py]: the registry
    [files_and_tables], the function [load_csv_to_db] and the [__main__]
    loop, over explicit models of the two libraries the script drives:
    the chunked reader returned by [pandas.read_csv(..., chunksize=...)]
    and the sink behind [DataFrame.to_sql].

    The script's effects are threaded through a small state-and-exception
    monad.  The state holds the database, the lines printed so far and the
    list of [to_sql] calls issued so far. *)

From stdpp Require Import gmap strings list fin_maps.
From Stdlib Require Import Lia Ascii DecimalString.

Open Scope string_scope.
Open Scope list_scope.

(** ** Exceptions

    [exn] stands for the instances of Python's [Exception] class that the
    libraries raise.  The script tells [pandas.errors.EmptyDataError] from
    the rest; [KeyboardInterrupt] and [SystemExit] are not [Exception]s
    and are not faults of the pipeline, they are outside this type. *)

Inductive exn : Type :=
| EmptyDataError
| FileNotFoundError
| OtherError (cls : string).

Definition is_EmptyDataError (e : exn) : bool :=
  match e with EmptyDataError => true | _ => false end.

(** ** Data frames *)

(** A cell of a [DataFrame].  [Str] is a value of a column read with
    [dtype=str], the text itself; [Inferred raw] is the value pandas
    infers, within its column, for the field whose text is [raw] (for
    [007] it may be the number 7): the model names it by that text and
    does not say what it is; [NaN] is pandas' missing value and [PyNone]
    is Python's [None]. *)
Inductive cell : Type :=
| Str (s : string)
| Inferred (raw : string)
| NaN
| PyNone.

Record DataFrame : Type := mkDataFrame {
  columns : list string;
  rows : list (list cell)
}.

(** [Series.notna]: both [NaN] and [None] count as missing. *)
Definition notna (v : cell) : bool :=
  match v with
  | NaN | PyNone => false
  | _ => true
  end.

(** ** The chunked reader: [pd.read_csv(path, chunksize=c, dtype=...)] *)

(** What is found at a path: no file, a file without content, a file
    that cannot be opened or whose header cannot be read, or a CSV file
    with a header row and data records.  For a file whose reading fails
    part-way, [records] are the data records the parser has taken in when
    it fails and [fault] is the exception it raises then. *)
Inductive source : Type :=
| Missing
| EmptyFile
| Unreadable (e : exn)
| Csv (header : list string) (records : list (list string)) (fault : option exn).

(** pandas' default missing-value spellings ([keep_default_na=True]). *)
Definition STR_NA_VALUES : list string :=
  [ ""; "#N/A"; "#N/A N/A"; "#NA"; "-1.#IND"; "-1.#QNAN"; "-NaN"; "-nan";
    "1.#IND"; "1.#QNAN"; "<NA>"; "N/A"; "NA"; "NULL"; "NaN"; "None";
    "n/a"; "nan"; "null" ].

Definition mem_string (s : string) (l : list string) : bool :=
  existsb (String.eqb s) l.

(** One field of one record.  [str_cols] are the columns of the [dtype]
    argument mapped to [str]. *)
Definition parse_field (str_cols : list string) (col field : string) : cell :=
  if mem_string field STR_NA_VALUES then NaN
  else if mem_string col str_cols then Str field
  else Inferred field.

(** One record against the header; a field the record lacks is read as
    the empty field, hence as [NaN].  This is how pandas reads a record
    that has no more fields than the header; it shifts the fields or
    raises on longer ones, and the properties that read cells are stated
    for files without such records. *)
Fixpoint parse_record (str_cols header record : list string) : list cell :=
  match header with
  | [] => []
  | col :: header' =>
      parse_field str_cols col (hd "" record)
        :: parse_record str_cols header' (tl record)
  end.

(** Batches of at most [c] elements, in order.  The fuel is the number of
    elements left, which is enough for every [c >= 1]. *)
Fixpoint batches_fuel {A : Type} (fuel c : nat) (l : list A) : list (list A) :=
  match fuel with
  | 0 => []
  | S fuel' =>
      match l with
      | [] => []
      | _ :: _ => take c l :: batches_fuel fuel' c (drop c l)
      end
  end.

Definition batches {A : Type} (c : nat) (l : list A) : list (list A) :=
  batches_fuel (length l) c l.

(** The chunks the iterator yields for a file with a header.  The first
    read of a parser always returns a frame: on a file with a header and
    no record the parser answers the first [get_chunk] with the empty
    frame carrying the header's columns (its [_first_chunk] case), and
    only the read after it raises [StopIteration].  With records, each
    read takes the next [c] of them, and a read that finds none left
    stops the iteration. *)
Definition read_chunks (c : nat) (str_cols header : list string)
    (records : list (list string)) : list DataFrame :=
  match records with
  | [] => [mkDataFrame header []]
  | _ :: _ =>
      map (fun b => mkDataFrame header (map (parse_record str_cols header) b))
          (batches c records)
  end.

(** The reader object: the chunks it will yield and how the iteration
    ends ([None]: [StopIteration]; [Some e]: the parser raises [e]). *)
Record TextFileReader : Type := mkReader {
  reader_chunks : list DataFrame;
  reader_fault : option exn
}.

(** The chunks the iterator yields for a file that is corrupt after
    [records]: a read fails as a whole when the corrupt position is among
    the lines it takes, so only the reads of [c] records that end before
    it return a frame; when the first read fails no frame is returned at
    all. *)
Definition read_chunks_before_fault (c : nat) (str_cols header : list string)
    (records : list (list string)) : list DataFrame :=
  map (fun b => mkDataFrame header (map (parse_record str_cols header) b))
      (batches c (take (c * (length records / c)) records)).

(** [pd.read_csv] itself raises on a missing file, on a file with no
    columns to parse and on a file it cannot open. *)
Definition read_csv (src : source) (chunksize : nat) (str_cols : list string)
    : exn + TextFileReader :=
  match src with
  | Missing => inl FileNotFoundError
  | EmptyFile => inl EmptyDataError
  | Unreadable e => inl e
  | Csv header records None =>
      inr (mkReader (read_chunks chunksize str_cols header records) None)
  | Csv header records (Some e) =>
      inr (mkReader (read_chunks_before_fault chunksize str_cols header records)
                    (Some e))
  end.

(** ** The sink: tables of the PostgreSQL database *)

Inductive sqltype : Type :=
| Text            (* [sqlalchemy.types.Text()], declared by the caller *)
| InferredType.   (* the type pandas derives from the column's values *)

(** [SqlInferred raw] is the stored form of the cell [Inferred raw]:
    the value inferred for the field [raw], not the text [raw]. *)
Inductive sqlval : Type :=
| SqlNull
| SqlText (s : string)
| SqlInferred (raw : string).

Record table : Type := mkTable {
  tcolumns : list (string * sqltype);
  trows : list (list sqlval)
}.

(** The [if_exists] argument of [to_sql]. *)
Inductive if_exists_mode : Type :=
| replace
| append.

(** Missing values, [NaN] or [None], are inserted as NULL. *)
Definition sql_value (v : cell) : sqlval :=
  match v with
  | Str s => SqlText s
  | Inferred raw => SqlInferred raw
  | NaN | PyNone => SqlNull
  end.

Fixpoint assoc {V : Type} (k : string) (l : list (string * V)) : option V :=
  match l with
  | [] => None
  | (k', v) :: l' => if String.eqb k k' then Some v else assoc k l'
  end.

(** The column types of a table created from a frame: the declared type
    where [dtype] has one, the inferred one elsewhere. *)
Definition create_columns (dtype : list (string * sqltype)) (cols : list string)
    : list (string * sqltype) :=
  map (fun c => (c, default InferredType (assoc c dtype))) cols.

(** How the sink answers one write.  A failing write either leaves the
    database as it was (the failure precedes any change, or the whole
    write is rolled back), or fails once the table has been dropped and
    created and before any row is inserted. *)
Inductive sink_outcome : Type :=
| Written
| FailsBefore (e : exn)
| FailsAfterCreate (e : exn).

(** ** State, output and the monad of the script *)

Inductive line : Type :=
| Loading (file_path table_name : string)
| ChunkLoaded (chunk_number : nat) (table_name : string)
| ErrorLoadingChunk (chunk_number : nat) (table_name : string) (e : exn)
| FinishedLoading (table_name : string)
| WarningEmpty (csv_file : string)
| CriticalError (csv_file table_name : string) (e : exn)
| EtlComplete.

(** One call of [chunk.to_sql(table_name, engine, if_exists=method,
    index=False, dtype=dtype)]. *)
Record sql_call : Type := mkCall {
  call_table : string;
  call_method : if_exists_mode;
  call_dtype : list (string * sqltype);
  call_frame : DataFrame
}.

Record state : Type := mkState {
  db : gmap string table;
  stdout : list line;
  sink_calls : list sql_call
}.

Definition M (A : Type) : Type := state -> state * (exn + A).

Definition ret {A : Type} (a : A) : M A := fun s => (s, inr a).

Definition raise {A : Type} (e : exn) : M A := fun s => (s, inl e).

Definition bind {A B : Type} (m : M A) (k : A -> M B) : M B :=
  fun s =>
    match m s with
    | (s', inl e) => (s', inl e)
    | (s', inr a) => k a s'
    end.

Notation "x <-- m ;; k" := (bind m (fun x => k))
  (at level 100, m at next level, right associativity).
Notation "m ;; k" := (bind m (fun _ => k))
  (at level 100, right associativity).

(** [try: body  except <class>: handler]: the handler runs in the state
    the body reached; an exception the clause does not name goes on. *)
Definition try_except {A : Type} (body : M A) (catches : exn -> bool)
    (handler : exn -> M A) : M A :=
  fun s =>
    match body s with
    | (s', inl e) => if catches e then handler e s' else (s', inl e)
    | (s', inr a) => (s', inr a)
    end.

Definition print (l : line) : M unit :=
  fun s => (mkState (db s) (stdout s ++ [l]) (sink_calls s), inr tt).

(** ** The script *)

Definition files_and_tables : list (string * string) :=
  [ ("individuals.csv", "individuals");
    ("relationships.csv", "relationships");
    ("marriages.csv", "marriages");
    ("snp_definitions.csv", "snp_definitions");
    ("snps.csv", "snps");
    ("indel_definitions.csv", "indel_definitions");
    ("indels.csv", "indels");
    ("structural_variants.csv", "structural_variants");
    ("health_phenotypes.csv", "health_phenotypes");
    ("lifestyle.csv", "lifestyle") ].

Definition data_lake_dir : string := "data_lake".

(** [os.path.join] of a directory and a relative file name. *)
Definition path_join (dir file : string) : string :=
  (dir ++ "/" ++ file)%string.

(** [chunk[col] = chunk[col].where(chunk[col].notna(), None)] on one row,
    read against the frame's columns: a missing value becomes [None], as
    the comment of the source says and as pandas does on object columns.
    The sink stores [None] and [NaN] alike as NULL. *)
Fixpoint where_notna_row (col : string) (cols : list string) (row : list cell)
    : list cell :=
  match cols, row with
  | c :: cols', v :: row' =>
      (if String.eqb c col then (if notna v then v else PyNone) else v)
        :: where_notna_row col cols' row'
  | _, _ => row
  end.

Definition where_notna (col : string) (chunk : DataFrame) : DataFrame :=
  mkDataFrame (columns chunk) (map (where_notna_row col (columns chunk)) (rows chunk)).

(** Lines 53 to 57: the loop over [["father_id", "mother_id"]], run for
    the relationships table only. *)
Definition coerce_chunk (table_name : string) (chunk : DataFrame) : DataFrame :=
  if String.eqb table_name "relationships" then
    fold_left
      (fun ch col => if mem_string col (columns ch) then where_notna col ch else ch)
      ["father_id"; "mother_id"] chunk
  else chunk.

(** Lines 53 to 65: the method of this write and the new value of the
    flag [table_created], which is set before the write is attempted. *)
Definition choose_method (table_name : string) (table_created : bool)
    : if_exists_mode * bool :=
  if String.eqb table_name "relationships" then
    if negb table_created then (replace, true) else (append, table_created)
  else (append, table_created).

(** The [chunksize] argument of both [read_csv] calls. *)
Definition chunksize : nat := Z.to_nat 100000.

Section Pipeline.

(** The environment of one run: what is found at each path, and how the
    sink answers the write of chunk number [n] into table [t]. *)
Variable fs : string -> source.
Variable sink : string -> nat -> sink_outcome.

Definition to_sql (chunk : DataFrame) (name : string) (chunk_number : nat)
    (if_exists : if_exists_mode) (dtype : list (string * sqltype)) : M unit :=
  fun s =>
    let calls := sink_calls s ++ [mkCall name if_exists dtype chunk] in
    let created := mkTable (create_columns dtype (columns chunk)) [] in
    let base :=
      match if_exists with
      | replace => created
      | append => default created (db s !! name)
      end in
    match sink name chunk_number with
    | Written =>
        let t := mkTable (tcolumns base)
                         (trows base ++ map (map sql_value) (rows chunk)) in
        (mkState (<[name := t]> (db s)) (stdout s) calls, inr tt)
    | FailsAfterCreate e =>
        (mkState (<[name := base]> (db s)) (stdout s) calls, inl e)
    | FailsBefore e =>
        (mkState (db s) (stdout s) calls, inl e)
    end.

(** The [for chunk in reader] loop, lines 50 to 71.  When the chunks
    are exhausted the iteration stops, or the reader's fault is raised
    out of the loop. *)
Fixpoint for_chunks (table_name : string) (dtype : list (string * sqltype))
    (chunks : list DataFrame) (fault : option exn)
    (chunk_number : nat) (table_created : bool) : M unit :=
  match chunks with
  | [] => match fault with Some e => raise e | None => ret tt end
  | chunk :: rest =>
      let chunk_number := S chunk_number in
      let chunk := coerce_chunk table_name chunk in
      let '(method, table_created) := choose_method table_name table_created in
      try_except
        (to_sql chunk table_name chunk_number method dtype ;;
         print (ChunkLoaded chunk_number table_name))
        (fun _ => true)
        (fun e => print (ErrorLoadingChunk chunk_number table_name e)) ;;
      for_chunks table_name dtype rest fault chunk_number table_created
  end.

Definition load_csv_to_db (csv_file table_name : string) : M unit :=
  let file_path := path_join data_lake_dir csv_file in
  print (Loading file_path table_name) ;;
  let '(reader, dtype) :=
    if String.eqb table_name "relationships" then
      (read_csv (fs file_path) chunksize
                ["individual_id"; "father_id"; "mother_id"],
       [("individual_id", Text); ("father_id", Text); ("mother_id", Text)])
    else
      (read_csv (fs file_path) chunksize [], []) in
  match reader with
  | inl e => raise e
  | inr reader =>
      for_chunks table_name dtype (reader_chunks reader) (reader_fault reader)
                 0 false ;;
      print (FinishedLoading table_name)
  end.

(** The body of the loop of [__main__], lines 76 to 85. *)
Definition load_item (csv_file table_name : string) : M unit :=
  try_except
    (try_except (load_csv_to_db csv_file table_name)
                is_EmptyDataError
                (fun _ => print (WarningEmpty csv_file)))
    (fun _ => true)
    (fun e => print (CriticalError csv_file table_name e)).

Fixpoint for_items (items : list (string * string)) : M unit :=
  match items with
  | [] => ret tt
  | (csv_file, table_name) :: rest =>
      load_item csv_file table_name ;; for_items rest
  end.

Definition main : M unit :=
  for_items files_and_tables ;; print EtlComplete.

End Pipeline.

(** ** Observations on a state *)

(** The rows of a table of the sink; a table that does not exist has none. *)
Definition table_rows (s : state) (t : string) : list (list sqlval) :=
  match db s !! t with
  | Some tb => trows tb
  | None => []
  end.

Definition row_count (s : state) (t : string) : nat := length (table_rows s t).

(** The state a whole run of the script leaves. *)
Definition run (fs : string -> source) (sink : string -> nat -> sink_outcome)
    (s : state) : state :=
  fst (main fs sink s).

(** Number of chunks of a table the log reports, loaded or failed. *)
Definition chunks_attempted (t : string) (out : list line) : nat :=
  length (List.filter (fun l => match l with
                                | ChunkLoaded _ t' | ErrorLoadingChunk _ t' _ =>
                                    String.eqb t' t
                                | _ => false
                                end) out).

Definition is_Loading (l : line) : bool :=
  match l with Loading _ _ => true | _ => false end.

(** The rows a chunk puts in the sink when its write succeeds. *)
Definition stored_rows (table_name : string) (chunk : DataFrame) : list (list sqlval) :=
  map (map sql_value) (rows (coerce_chunk table_name chunk)).

(** The rows of the chunks whose write the sink accepted, in order;
    [k] is the number of the chunk before the first one of [chunks]. *)
Fixpoint written_rows (sink : string -> nat -> sink_outcome) (table_name : string)
    (k : nat) (chunks : list DataFrame) : list (list sqlval) :=
  match chunks with
  | [] => []
  | chunk :: rest =>
      match sink table_name (S k) with
      | Written => stored_rows table_name chunk
      | _ => []
      end ++ written_rows sink table_name (S k) rest
  end.

(** The line printed for chunk number [n], by the sink's answer. *)
Definition chunk_line (sink : string -> nat -> sink_outcome) (table_name : string)
    (n : nat) : line :=
  match sink table_name n with
  | Written => ChunkLoaded n table_name
  | FailsBefore e | FailsAfterCreate e => ErrorLoadingChunk n table_name e
  end.

(** The methods of the writes of [n] chunks, given the flag at the start. *)
Definition methods_of (table_name : string) (table_created : bool) (n : nat)
    : list if_exists_mode :=
  match n with
  | 0 => []
  | S n' => fst (choose_method table_name table_created) :: repeat append n'
  end.

(** Ceiling of [n / c]. *)
Definition ceil_div (n c : nat) : nat := (n + c - 1) / c.

(** ** Definitions used to state the properties *)

(** The [dtype] arguments [load_csv_to_db] uses for a table, and the
    reader it opens. *)
Definition str_dtype (table_name : string) : list string :=
  if String.eqb table_name "relationships"
  then ["individual_id"; "father_id"; "mother_id"] else [].

Definition sql_dtype (table_name : string) : list (string * sqltype) :=
  if String.eqb table_name "relationships"
  then [("individual_id", Text); ("father_id", Text); ("mother_id", Text)] else [].

Definition open_reader (fs : string -> source) (csv_file table_name : string)
    : exn + TextFileReader :=
  read_csv (fs (path_join data_lake_dir csv_file)) chunksize (str_dtype table_name).

(** The state after the [try] statement of the loop for one chunk. *)
Definition after_write (sink : string -> nat -> sink_outcome) (t : string)
    (dtype : list (string * sqltype)) (chunk : DataFrame) (k : nat) (tc : bool)
    (s : state) : state :=
  let calls :=
    sink_calls s ++ [mkCall t (fst (choose_method t tc)) dtype (coerce_chunk t chunk)] in
  let created := mkTable (create_columns dtype (columns (coerce_chunk t chunk))) [] in
  let base :=
    match fst (choose_method t tc) with
    | replace => created
    | append => default created (db s !! t)
    end in
  let out := stdout s ++ [chunk_line sink t (S k)] in
  match sink t (S k) with
  | Written =>
      mkState (<[t := mkTable (tcolumns base) (trows base ++ stored_rows t chunk)]> (db s))
              out calls
  | FailsAfterCreate _ => mkState (<[t := base]> (db s)) out calls
  | FailsBefore _ => mkState (db s) out calls
  end.

Definition printed (l : line) (s : state) : state :=
  mkState (db s) (stdout s ++ [l]) (sink_calls s).

(** The line a dataset ends with when [e] is raised out of
    [load_csv_to_db]: the warning of the inner handler, or the critical
    error of the outer one. *)
Definition handler_line (csv_file table_name : string) (e : exn) : line :=
  if is_EmptyDataError e then WarningEmpty csv_file
  else CriticalError csv_file table_name e.

(** Everything one dataset prints. *)
Definition item_log (fs : string -> source) (sink : string -> nat -> sink_outcome)
    (csv_file table_name : string) : list line :=
  Loading (path_join data_lake_dir csv_file) table_name ::
  match open_reader fs csv_file table_name with
  | inl e => [handler_line csv_file table_name e]
  | inr r =>
      map (chunk_line sink table_name) (seq 1 (length (reader_chunks r))) ++
      [match reader_fault r with
       | None => FinishedLoading table_name
       | Some e => handler_line csv_file table_name e
       end]
  end.

(** Every [to_sql] call one dataset issues. *)
Definition item_calls (fs : string -> source) (csv_file table_name : string)
    : list sql_call :=
  match open_reader fs csv_file table_name with
  | inl _ => []
  | inr r =>
      zip_with (fun m ch => mkCall table_name m (sql_dtype table_name)
                                   (coerce_chunk table_name ch))
               (methods_of table_name false (length (reader_chunks r)))
               (reader_chunks r)
  end.

(** The rows one dataset gets written. *)
Definition loaded_rows (fs : string -> source) (sink : string -> nat -> sink_outcome)
    (csv_file table_name : string) : list (list sqlval) :=
  match open_reader fs csv_file table_name with
  | inl _ => []
  | inr r => written_rows sink table_name 0 (reader_chunks r)
  end.

(** A data lake with a two-record relationships file and a one-record
    individuals file; the other files are missing. *)
Definition small_lake (p : string) : source :=
  if String.eqb p "data_lake/relationships.csv" then
    Csv ["individual_id"; "father_id"; "mother_id"]
        [["3"; ""; "1"]; ["4"; "NA"; "2"]] None
  else if String.eqb p "data_lake/individuals.csv" then
    Csv ["individual_id"] [["1"]] None
  else Missing.

Definition healthy_sink (t : string) (n : nat) : sink_outcome := Written.

Definition empty_state : state := mkState ∅ [] [].

(** The guarded assignment of the loop over the two columns. *)
Definition normalize_column (ch : DataFrame) (col : string) : DataFrame :=
  if mem_string col (columns ch) then where_notna col ch else ch.

(** The cell the coercion of relationships leaves in column [col]. *)
Definition coerced_cell (col : string) (v : cell) : cell :=
  if (String.eqb col "father_id" || String.eqb col "mother_id") && negb (notna v)
  then PyNone else v.

Definition normalize_row (cols : list string) (col : string) (row : list cell)
    : list cell :=
  if mem_string col cols then where_notna_row col cols row else row.

(** The coercion of relationships on one row of a frame with columns
    [cols]. *)
Definition coerce_row (cols : list string) (row : list cell) : list cell :=
  normalize_row cols "mother_id" (normalize_row cols "father_id" row).

Definition is_Written (o : sink_outcome) : bool :=
  match o with Written => true | _ => false end.

(** Number of chunks of a table the log reports as failed. *)
Definition chunks_failed (t : string) (out : list line) : nat :=
  length (List.filter (fun l => match l with
                                | ErrorLoadingChunk _ t' _ => String.eqb t' t
                                | _ => false
                                end) out).

(** A sink that refuses the first chunk of every table and accepts the
    others. *)
Definition first_write_fails (t : string) (n : nat) : sink_outcome :=
  if Nat.eqb n 1 then FailsBefore (OtherError "OperationalError") else Written.

(** A data lake whose individuals file has a header and no data row. *)
Definition header_only_lake (p : string) : source :=
  if String.eqb p "data_lake/individuals.csv" then Csv ["individual_id"] [] None
  else Missing.

(** A relationships file one record longer than a chunk. *)
Definition two_chunk_lake (p : string) : source :=
  if String.eqb p "data_lake/relationships.csv" then
    Csv ["individual_id"; "father_id"; "mother_id"]
        (repeat ["7"; ""; ""] (S chunksize)) None
  else Missing.

(** ** Further observations on the calls of a run *)

Definition is_replace (m : if_exists_mode) : bool :=
  match m with replace => true | append => false end.

(** Number of calls that drop and recreate their table. *)
Definition replace_count (calls : list sql_call) : nat :=
  length (List.filter (fun c => is_replace (call_method c)) calls).

(** What the sink holds for a field of a file, by the table and the
    column it is read into. *)
Definition stored_field (table_name col field : string) : sqlval :=
  if mem_string field STR_NA_VALUES then SqlNull
  else if mem_string col (str_dtype table_name) then SqlText field
  else SqlInferred field.

(** A data lake that differs from [small_lake] at a path the script does
    not read. *)
Definition other_lake (p : string) : source :=
  if String.eqb p "data_lake/notes.csv" then EmptyFile else small_lake p.

(** * The dashboard: [streamlit_app/app.py]

    One run of the Streamlit script: the queries it sends to the database
    and the elements it draws, in order.  The libraries are taken as an
    environment [libs]: the answer of the database to a query, the
    choices of the user in the sidebar widgets, and the pandas and plotly
    computations the model does not interpret, each of which may raise.
    [st.cache_data] keeps results from one run to the next; within one
    run no query is sent twice, and the model is that of a run that finds
    nothing cached.  The page configuration of lines 10 to 41 is not
    modelled. *)

(** The exceptions the script tells apart: [except SQLAlchemyError] comes
    before [except Exception]. *)
Inductive app_exn : Type :=
| SQLAlchemyError (msg : string)
| KeyError (key : string)
| PyException (msg : string).

Definition is_SQLAlchemyError (e : app_exn) : bool :=
  match e with SQLAlchemyError _ => true | _ => false end.

(** [str(e)], as the messages interpolate it. *)
Definition str_exn (e : app_exn) : string :=
  match e with
  | SQLAlchemyError msg | PyException msg => msg
  | KeyError key => ("'" ++ key ++ "'")%string
  end.

(** What the script draws. *)
Inductive element : Type :=
| st_sidebar_title (body : string)
| st_title (body : string)
| st_markdown (body : string)
| st_subheader (body : string)
| st_info (body : string)
| st_warning (body : string)
| st_error (body : string)
| st_dataframe (data : DataFrame)
| st_plotly_chart (plot_func title : string) (data : DataFrame).

Record session : Type := mkSession {
  shown : list element;
  queries : list string
}.

Record libs : Type := mkLibs {
  (* [pd.read_sql_query(text(query), engine)] *)
  read_sql_query : string -> app_exn + DataFrame;
  (* [px.<plot_func>(data, ..., title=title)] then [st.plotly_chart]:
     the exception raised, if any *)
  plotly : string -> string -> DataFrame -> option app_exn;
  (* [st.sidebar.selectbox(label, options)], [None] without options *)
  selectbox : string -> list string -> option string;
  selectbox_value : string -> list cell -> option cell;
  (* [st.sidebar.radio(label, options)] *)
  radio : string -> list string -> option string;
  (* [st.sidebar.multiselect(label, options=..., default=...)] *)
  multiselect : string -> list cell -> list cell -> list cell;
  (* [pd.to_datetime(column, errors="coerce")] and [.dt.year] *)
  to_datetime : list cell -> app_exn + list cell;
  dt_year : list cell -> app_exn + list cell;
  (* [sorted(values)] *)
  sorted : list cell -> app_exn + list cell;
  (* [column.value_counts().reset_index()] *)
  value_counts : list cell -> app_exn + DataFrame;
  (* [df.groupby(col).size().reset_index(name="Count")] *)
  groupby_size : DataFrame -> string -> app_exn + DataFrame
}.

Definition UI (A : Type) : Type := session -> session * (app_exn + A).

Definition ui_ret {A : Type} (a : A) : UI A := fun u => (u, inr a).

Definition ui_raise {A : Type} (e : app_exn) : UI A := fun u => (u, inl e).

Definition ui_bind {A B : Type} (m : UI A) (k : A -> UI B) : UI B :=
  fun u =>
    match m u with
    | (u', inl e) => (u', inl e)
    | (u', inr a) => k a u'
    end.

(** The result of a library call, raised when it is an exception. *)
Definition ui_lift {A : Type} (r : app_exn + A) : UI A :=
  match r with
  | inl e => ui_raise e
  | inr a => ui_ret a
  end.

(** [try: body  except Exception as e: handler]. *)
Definition ui_try {A : Type} (body : UI A) (handler : app_exn -> UI A) : UI A :=
  fun u =>
    match body u with
    | (u', inl e) => handler e u'
    | (u', inr a) => (u', inr a)
    end.

Definition draw (e : element) : UI unit :=
  fun u => (mkSession (shown u ++ [e]) (queries u), inr tt).

Declare Scope ui_scope.
Notation "x <-- m ;; k" := (ui_bind m (fun x => k))
  (at level 100, m at next level, right associativity) : ui_scope.
Notation "m ;; k" := (ui_bind m (fun _ => k))
  (at level 100, right associativity) : ui_scope.

#[global] Instance cell_eq_dec : EqDecision cell.
Proof. solve_decision. Defined.

(** ** Frames as the pages use them *)

(** [pd.DataFrame()]. *)
Definition no_frame : DataFrame := mkDataFrame [] [].

(** [df.empty]: some axis has length zero. *)
Definition df_empty (df : DataFrame) : bool :=
  match columns df, rows df with
  | [], _ | _, [] => true
  | _ :: _, _ :: _ => false
  end.

(** [df.head(n)]. *)
Definition df_head (n : nat) (df : DataFrame) : DataFrame :=
  mkDataFrame (columns df) (take n (rows df)).

Fixpoint index_of (col : string) (cols : list string) : option nat :=
  match cols with
  | [] => None
  | c :: cols' => if String.eqb c col then Some 0 else S <$> index_of col cols'
  end.

(** [df[col]]: the values of the column, or [KeyError]. *)
Definition getitem (df : DataFrame) (col : string) : UI (list cell) :=
  match index_of col (columns df) with
  | Some j => ui_ret (map (fun row => nth j row NaN) (rows df))
  | None => ui_raise (KeyError col)
  end.

(** [df[col] = values], for values aligned with the rows: the column is
    overwritten where it exists and added last where it does not. *)
Definition setitem (df : DataFrame) (col : string) (values : list cell) : DataFrame :=
  match index_of col (columns df) with
  | Some j =>
      mkDataFrame (columns df) (zip_with (fun row v => <[j := v]> row) (rows df) values)
  | None =>
      mkDataFrame (columns df ++ [col])
                  (zip_with (fun row v => row ++ [v]) (rows df) values)
  end.

(** [df[mask]] for a boolean column [mask]. *)
Fixpoint boolean_index (mask : list bool) (rws : list (list cell)) : list (list cell) :=
  match mask, rws with
  | b :: mask', row :: rws' =>
      if b then row :: boolean_index mask' rws' else boolean_index mask' rws'
  | _, _ => []
  end.

(** [column.dropna()] and [column.unique()], in order of first
    appearance. *)
Definition dropna (values : list cell) : list cell := List.filter notna values.

Fixpoint unique_from (seen values : list cell) : list cell :=
  match values with
  | [] => []
  | v :: values' =>
      if bool_decide (v ∈ seen) then unique_from seen values'
      else v :: unique_from (v :: seen) values'
  end.

Definition unique (values : list cell) : list cell := unique_from [] values.

(** A value inside an f-string. *)
Definition format_value (v : option cell) : string :=
  match v with
  | Some (Str s) => s
  | Some (Inferred raw) => raw
  | Some NaN => "nan"
  | Some PyNone | None => "None"
  end.

(** [column == v]: nothing equals a missing value. *)
Definition eq_mask (v : option cell) (values : list cell) : list bool :=
  map (fun c => match v with
                | Some x => notna c && bool_decide (c = x)
                | None => false
                end) values.

(** The decimal text of a number, as an f-string prints it. *)
Definition decimal (n : nat) : string := NilZero.string_of_uint (Nat.to_uint n).

Definition to_upper (c : ascii) : ascii :=
  let n := nat_of_ascii c in
  if Nat.leb 97 n && Nat.leb n 122 then ascii_of_nat (n - 32) else c.

Definition to_lower (c : ascii) : ascii :=
  let n := nat_of_ascii c in
  if Nat.leb 65 n && Nat.leb n 90 then ascii_of_nat (n + 32) else c.

Fixpoint lower (s : string) : string :=
  match s with
  | EmptyString => EmptyString
  | String c s' => String (to_lower c) (lower s')
  end.

(** [s.capitalize()] on ASCII text. *)
Definition capitalize (s : string) : string :=
  match s with
  | EmptyString => EmptyString
  | String c s' => String (to_upper c) (lower s')
  end.

Definition is_choice (choice : option string) (s : string) : bool :=
  match choice with
  | Some c => String.eqb c s
  | None => false
  end.

(** [pd.DataFrame(summary)] for the list of dictionaries of the
    overview. *)
Definition summary_frame (summary : list (string * nat)) : DataFrame :=
  mkDataFrame (match summary with [] => [] | _ :: _ => ["Table"; "Rows (sampled)"] end)
              (map (fun entry => [Str entry.1; Inferred (decimal entry.2)]) summary).

(** [df.columns = names]: the number of names must be that of the
    columns. *)
Definition set_columns (df : DataFrame) (names : list string) : UI DataFrame :=
  if Nat.eqb (length (columns df)) (length names)
  then ui_ret (mkDataFrame names (rows df))
  else ui_raise (PyException "Length mismatch").

(** The tables the overview and the detailed page offer: all the
    destinations of the loader but snps. *)
Definition dashboard_tables : list string :=
  [ "individuals"; "relationships"; "marriages"; "snp_definitions";
    "indel_definitions"; "indels"; "structural_variants"; "health_phenotypes";
    "lifestyle" ].

Definition pages : list string :=
  [ "Dashboard Overview"; "Individuals"; "Health & Lifestyle"; "Genetic Analysis";
    "Advanced Genetics"; "Family Relationships"; "Marriages"; "Structural Variants";
    "Detailed Tables" ].

Section Dashboard.

Variable L : libs.

Local Open Scope ui_scope.

(** Lines 47 to 57.  The query is recorded, then sent. *)
Definition run_query (query : string) : UI DataFrame :=
  fun u =>
    let u := mkSession (shown u) (queries u ++ [query]) in
    match read_sql_query L query with
    | inr df => (u, inr df)
    | inl e =>
        if is_SQLAlchemyError e
        then (draw (st_error ("SQLAlchemy error: " ++ str_exn e)%string) ;;
              ui_ret no_frame) u
        else (draw (st_error ("Query error: " ++ str_exn e)%string) ;;
              ui_ret no_frame) u
    end.

Definition load_table_full (table_name : string) : UI DataFrame :=
  let query := ("SELECT * FROM " ++ table_name)%string in
  run_query query.

Definition load_table_sample (table_name : string) (limit : nat) : UI DataFrame :=
  let query := ("SELECT * FROM " ++ table_name ++ " LIMIT " ++ decimal limit)%string in
  run_query query.

(** Lines 69 to 74, for [plot_func] one of plotly's functions. *)
Definition safe_plot (plot_func title : string) (data : DataFrame) : UI unit :=
  ui_try
    (match plotly L plot_func title data with
     | Some e => ui_raise e
     | None => draw (st_plotly_chart plot_func title data)
     end)
    (fun e => draw (st_error ("Plot error: " ++ str_exn e)%string)).

(** The loop of lines 88 to 90. *)
Fixpoint sample_tables (tables : list string) (summary : list (string * nat))
    : UI (list (string * nat)) :=
  match tables with
  | [] => ui_ret summary
  | tbl :: tables' =>
      df <-- load_table_sample tbl 100 ;;
      sample_tables tables' (summary ++ [(tbl, length (rows df))])
  end.

Definition dashboard_overview : UI unit :=
  draw (st_title "Genetic Data Lake Dashboard") ;;
  draw (st_markdown "### Overview") ;;
  draw (st_markdown "This dashboard provides a comprehensive view of synthetic genetic, health, and lifestyle data.") ;;
  summary <-- sample_tables dashboard_tables [] ;;
  let summary_df := summary_frame summary in
  draw (st_markdown "#### Table Summary (Sampled Rows)") ;;
  draw (st_dataframe summary_df) ;;
  safe_plot "bar" "Sample Row Counts per Table" summary_df ;;
  draw (st_info "Caching and database indexes are used to optimize performance.").

Definition individuals_page : UI unit :=
  draw (st_title "Individuals") ;;
  df <-- load_table_full "individuals" ;;
  if df_empty df then draw (st_warning "No individual data available.")
  else
    draw (st_markdown "### Demographics") ;;
    genders <-- ui_try (gender <-- getitem df "gender" ;;
                        ui_ret (unique (dropna gender)))
                       (fun _ => ui_ret []) ;;
    let selected_gender := multiselect L "Filter by Gender" genders genders in
    gender <-- getitem df "gender" ;;
    let filtered_df :=
      mkDataFrame (columns df)
        (boolean_index (map (fun c => bool_decide (c ∈ selected_gender)) gender)
                       (rows df)) in
    draw (st_dataframe (df_head 100 filtered_df)) ;;
    ui_try
      (birth_date <-- getitem df "birth_date" ;;
       dates <-- ui_lift (to_datetime L birth_date) ;;
       years <-- ui_lift (dt_year L dates) ;;
       let df := setitem df "birth_year" years in
       safe_plot "histogram" "Birth Year Distribution" df)
      (fun e => draw (st_error ("Error generating birth year plot: " ++ str_exn e)%string)).

(** The two columns of [st.columns(2)] are drawn one after the other;
    which column an element is in is not recorded. *)
Definition health_lifestyle_page : UI unit :=
  draw (st_title "Health & Lifestyle") ;;
  draw (st_markdown "#### Health & Phenotype") ;;
  health_df <-- load_table_full "health_phenotypes" ;;
  (if df_empty health_df then draw (st_warning "No health data available.")
   else
     draw (st_dataframe (df_head 100 health_df)) ;;
     safe_plot "histogram" "BMI Distribution" health_df ;;
     safe_plot "scatter" "Height vs Weight" health_df) ;;
  draw (st_markdown "#### Lifestyle") ;;
  lifestyle_df <-- load_table_full "lifestyle" ;;
  if df_empty lifestyle_df then draw (st_warning "No lifestyle data available.")
  else
    draw (st_dataframe (df_head 100 lifestyle_df)) ;;
    ui_try
      (occupation <-- getitem lifestyle_df "occupation" ;;
       occ_counts <-- ui_lift (value_counts L occupation) ;;
       occ_counts <-- set_columns occ_counts ["Occupation"; "Count"] ;;
       safe_plot "bar" "Occupation Distribution" occ_counts)
      (fun e => draw (st_error ("Error generating occupation plot: " ++ str_exn e)%string)).

Definition genetics_page : UI unit :=
  draw (st_title "Genetic Markers Overview") ;;
  let marker_type :=
    radio L "Select Marker Type"
          ["SNP Definitions"; "Indel Definitions"; "Indel Genotypes"] in
  if is_choice marker_type "SNP Definitions" then
    df <-- load_table_full "snp_definitions" ;;
    if df_empty df then draw (st_warning "No SNP definition data available.")
    else
      draw (st_dataframe (df_head 100 df)) ;;
      safe_plot "histogram" "SNP Allele1 Frequency Distribution" df
  else if is_choice marker_type "Indel Definitions" then
    df <-- load_table_full "indel_definitions" ;;
    if df_empty df then draw (st_warning "No Indel definition data available.")
    else
      draw (st_dataframe (df_head 100 df)) ;;
      safe_plot "histogram" "Indel Frequency Distribution" df
  else if is_choice marker_type "Indel Genotypes" then
    draw (st_markdown "### Indel Genotype Sample") ;;
    df <-- load_table_sample "indels" 200 ;;
    if df_empty df then draw (st_warning "No Indel genotype data available.")
    else draw (st_dataframe (df_head 100 df))
  else ui_ret tt.

Definition advanced_genetics_page : UI unit :=
  draw (st_title "Advanced Genetic Analysis") ;;
  snp_defs <-- load_table_full "snp_definitions" ;;
  if df_empty snp_defs
  then draw (st_warning "No SNP definition data available for advanced analysis.")
  else
    chromosome <-- getitem snp_defs "chromosome" ;;
    chromosomes <-- ui_lift (sorted L (unique (dropna chromosome))) ;;
    let selected_chr := selectbox_value L "Select Chromosome" chromosomes in
    chromosome <-- getitem snp_defs "chromosome" ;;
    let filtered_snp_defs :=
      mkDataFrame (columns snp_defs)
                  (boolean_index (eq_mask selected_chr chromosome) (rows snp_defs)) in
    draw (st_subheader ("SNP Definitions on Chromosome " ++ format_value selected_chr)%string) ;;
    draw (st_dataframe (df_head 100 filtered_snp_defs)) ;;
    safe_plot "histogram"
              ("Allele1 Frequency Distribution (Chr " ++ format_value selected_chr ++ ")")%string
              filtered_snp_defs ;;
    draw (st_info "SNP genotype details are omitted for performance. Focus is on SNP definitions and other datasets.").

Definition relationships_page : UI unit :=
  draw (st_title "Family Relationships") ;;
  df <-- load_table_full "relationships" ;;
  if df_empty df then draw (st_warning "No relationship data available.")
  else
    draw (st_dataframe (df_head 100 df)) ;;
    ui_try
      (counts <-- ui_lift (groupby_size L df "father_id") ;;
       let summary := df_head 10 counts in
       draw (st_markdown "#### Relationship Summary") ;;
       draw (st_dataframe summary))
      (fun e => draw (st_error ("Error generating relationships summary: " ++ str_exn e)%string)).

Definition marriages_page : UI unit :=
  draw (st_title "Marriages") ;;
  df <-- load_table_full "marriages" ;;
  if df_empty df then draw (st_warning "No marriage data available.")
  else
    draw (st_dataframe (df_head 100 df)) ;;
    ui_try
      (marriage_date <-- getitem df "marriage_date" ;;
       dates <-- ui_lift (to_datetime L marriage_date) ;;
       let df := setitem df "marriage_date" dates in
       safe_plot "histogram" "Marriage Date Distribution" df)
      (fun e => draw (st_error ("Error generating marriage plot: " ++ str_exn e)%string)).

Definition structural_variants_page : UI unit :=
  draw (st_title "Structural Variants") ;;
  df <-- load_table_full "structural_variants" ;;
  if df_empty df then draw (st_warning "No structural variant data available.")
  else
    draw (st_dataframe (df_head 100 df)) ;;
    safe_plot "pie" "Structural Variant Type Distribution" df.

(** Without a selection there is nothing to capitalize: [None] has no
    such method. *)
Definition detailed_tables_page : UI unit :=
  draw (st_title "Detailed Data Tables") ;;
  let selected_table := selectbox L "Select Table" dashboard_tables in
  df <-- load_table_full (format_value (Str <$> selected_table)) ;;
  match selected_table with
  | None => ui_raise (PyException "'NoneType' object has no attribute 'capitalize'")
  | Some name =>
      draw (st_markdown ("### " ++ capitalize name ++ " (first 200 rows)")%string) ;;
      draw (st_dataframe (df_head 200 df))
  end.

(** Lines 235 to 259. *)
Definition navigation : UI unit :=
  draw (st_sidebar_title "Navigation") ;;
  let selected_page := selectbox L "Select Page" pages in
  if is_choice selected_page "Dashboard Overview" then dashboard_overview
  else if is_choice selected_page "Individuals" then individuals_page
  else if is_choice selected_page "Health & Lifestyle" then health_lifestyle_page
  else if is_choice selected_page "Genetic Analysis" then genetics_page
  else if is_choice selected_page "Advanced Genetics" then advanced_genetics_page
  else if is_choice selected_page "Family Relationships" then relationships_page
  else if is_choice selected_page "Marriages" then marriages_page
  else if is_choice selected_page "Structural Variants" then structural_variants_page
  else if is_choice selected_page "Detailed Tables" then detailed_tables_page
  else ui_ret tt.

End Dashboard.

(** ** Definitions used to state the properties of the dashboard *)

(** [m] keeps the invariant [I] of the session and, when it returns, its
    result satisfies [Q]. *)
Definition ui_spec {A : Type} (I : session -> Prop) (m : UI A) (Q : A -> Prop) : Prop :=
  forall u, I u -> I (fst (m u)) /\ forall a, snd (m u) = inr a -> Q a.

(** [m] returns whatever the session: it raises nothing. *)
Definition never_raises {A : Type} (m : UI A) : Prop :=
  forall u, exists a, snd (m u) = inr a.

(** Every element drawn satisfies [Pe] and every query sent [Pq]. *)
Definition session_ok (Pe : element -> Prop) (Pq : string -> Prop) (u : session) : Prop :=
  Forall Pe (shown u) /\ Forall Pq (queries u).

(** A table drawn on the page has at most [n] rows. *)
Definition at_most_rows (n : nat) (e : element) : Prop :=
  match e with
  | st_dataframe df => length (rows df) <= n
  | _ => True
  end.

Definition full_query (t : string) : string := ("SELECT * FROM " ++ t)%string.

Definition sample_query (t : string) (limit : nat) : string :=
  ("SELECT * FROM " ++ t ++ " LIMIT " ++ decimal limit)%string.

(** A query that reads one of the loader's tables other than snps. *)
Definition reads_a_loaded_table (q : string) : Prop :=
  exists t, In t (map snd files_and_tables) /\ t <> "snps" /\
            (q = full_query t \/ exists limit, q = sample_query t limit).

(** The message [run_query] draws for an exception. *)
Definition query_error (e : app_exn) : element :=
  if is_SQLAlchemyError e
  then st_error ("SQLAlchemy error: " ++ str_exn e)%string
  else st_error ("Query error: " ++ str_exn e)%string.

(** What [run_query] hands back and draws for an answer of the
    database. *)
Definition query_frame (answer : app_exn + DataFrame) : DataFrame :=
  match answer with inr df => df | inl _ => no_frame end.

Definition query_errors (answer : app_exn + DataFrame) : list element :=
  match answer with inr _ => [] | inl e => [query_error e] end.

(** What [safe_plot] draws. *)
Definition plot_element (L : libs) (plot_func title : string) (data : DataFrame)
    : element :=
  match plotly L plot_func title data with
  | Some e => st_error ("Plot error: " ++ str_exn e)%string
  | None => st_plotly_chart plot_func title data
  end.

(** The values of a column that is there. *)
Definition column_values (df : DataFrame) (col : string) : list cell :=
  match index_of col (columns df) with
  | Some j => map (fun row => nth j row NaN) (rows df)
  | None => []
  end.

(** A database without the tables and an environment that always takes
    the first option. *)
Definition no_tables (q : string) : app_exn + DataFrame :=
  inl (SQLAlchemyError "relation does not exist").

Definition first_option_libs (db_answer : string -> app_exn + DataFrame) : libs :=
  mkLibs db_answer (fun _ _ _ => None) (fun _ opts => head opts)
         (fun _ opts => head opts) (fun _ opts => head opts) (fun _ _ d => d)
         (fun c => inr c) (fun c => inr c) (fun c => inr c)
         (fun _ => inl (PyException "no counts"))
         (fun _ _ => inl (KeyError "father_id")).

(** An individuals table without the gender column. *)
Definition no_gender (q : string) : app_exn + DataFrame :=
  if String.eqb q "SELECT * FROM individuals"
  then inr (mkDataFrame ["individual_id"] [[Str "1"]; [Str "2"]])
  else inl (SQLAlchemyError "relation does not exist").

(** ** Further files and states used in the examples *)

(** No record has more fields than the header. *)
Definition fits (header : list string) (records : list (list string)) : Prop :=
  Forall (fun record => length record <= length header) records.

(** An individuals file of two full chunks and one more record. *)
Definition three_chunk_lake (p : string) : source :=
  if String.eqb p "data_lake/individuals.csv" then
    Csv ["individual_id"] (repeat ["7"] (S (chunksize + chunksize))) None
  else Missing.

(** A sink that refuses the second chunk of every table and accepts the
    others. *)
Definition second_write_fails (t : string) (n : nat) : sink_outcome :=
  if Nat.eqb n 2 then FailsBefore (OtherError "OperationalError") else Written.

(** A database an earlier run has filled, with a table of its own
    besides. *)
Definition previous_state : state :=
  mkState
    (<[ "relationships" :=
          mkTable [("individual_id", Text); ("father_id", Text); ("mother_id", Text)]
                  [[SqlText "1"; SqlNull; SqlNull]] ]>
     (<[ "individuals" :=
           mkTable [("individual_id", InferredType)] [[SqlInferred "1"]] ]>
      {[ "audit_log" := mkTable [("event", InferredType)] [[SqlInferred "loaded"]] ]}))
    [] [].

(** What the sink may hold for a field of a file, by the table and the
    column it is read into: NULL for a missing field, the field's text in
    a column read as [str], and elsewhere the value pandas infers, which
    is not NULL. *)
Definition stores (table_name col field : string) (v : sqlval) : Prop :=
  if mem_string field STR_NA_VALUES then v = SqlNull
  else if mem_string col (str_dtype table_name) then v = SqlText field
  else v <> SqlNull.

(** A chunk of relationships with a missing father and a missing
    mother. *)
Definition parents_chunk : DataFrame :=
  mkDataFrame ["individual_id"; "father_id"; "mother_id"]
              [[Str "3"; NaN; Str "1"]; [Str "4"; Str "2"; NaN]].

(** * Properties *)

(** ** Batches *)

Lemma ceil_div_zero (c : nat) : 0 < c -> ceil_div 0 c = 0.
Proof.
  intros Hc. unfold ceil_div. apply Nat.div_small. lia.
Qed.

Lemma ceil_div_step (n c : nat) :
  0 < c -> 0 < n -> ceil_div n c = S (ceil_div (n - c) c).
Proof.
  intros Hc Hn. unfold ceil_div.
  destruct (le_lt_dec c n) as [Hle | Hlt].
  - replace (n + c - 1) with ((n - c + c - 1) + 1 * c) by lia.
    rewrite Nat.div_add by lia. lia.
  - replace (n - c) with 0 by lia. simpl.
    rewrite (Nat.div_small (c - 1) c) by lia.
    replace (n + c - 1) with ((n - 1) + 1 * c) by lia.
    rewrite Nat.div_add by lia.
    rewrite Nat.div_small by lia. reflexivity.
Qed.

(** The ceiling is the least number of batches of size [c] that hold [n]. *)
Lemma ceil_div_spec (n c : nat) :
  0 < c -> n <= ceil_div n c * c /\ (0 < n -> (ceil_div n c - 1) * c < n).
Proof.
  intros Hc. unfold ceil_div.
  pose proof (Nat.div_mod (n + c - 1) c ltac:(lia)) as Hdiv.
  pose proof (Nat.mod_upper_bound (n + c - 1) c ltac:(lia)) as Hmod.
  split; [nia | intros Hn].
  assert (1 <= (n + c - 1) / c) by (apply Nat.div_le_lower_bound; lia).
  nia.
Qed.

Section Batches.
Context {A : Type}.
Implicit Types (l : list A) (c fuel : nat).

Lemma batches_fuel_concat fuel c l :
  0 < c -> length l <= fuel -> concat (batches_fuel fuel c l) = l.
Proof.
  intros Hc. revert l.
  induction fuel as [| fuel IH]; intros l Hlen.
  - destruct l; [reflexivity | simpl in Hlen; lia].
  - destruct l as [| a l']; [reflexivity |].
    cbn [batches_fuel concat].
    rewrite IH.
    + apply take_drop.
    + rewrite length_drop. simpl in *. lia.
Qed.

Lemma batches_fuel_length fuel c l :
  0 < c -> length l <= fuel ->
  length (batches_fuel fuel c l) = ceil_div (length l) c.
Proof.
  intros Hc. revert l.
  induction fuel as [| fuel IH]; intros l Hlen.
  - destruct l; [| simpl in Hlen; lia].
    simpl. symmetry. by apply ceil_div_zero.
  - destruct l as [| a l'].
    + simpl. symmetry. by apply ceil_div_zero.
    + cbn [batches_fuel length].
      rewrite IH by (rewrite length_drop; simpl in *; lia).
      rewrite length_drop. symmetry.
      apply (ceil_div_step (length (a :: l')) c); simpl; lia.
Qed.

Lemma batches_fuel_bounded fuel c l :
  0 < c ->
  Forall (fun b => 0 < length b /\ length b <= c) (batches_fuel fuel c l).
Proof.
  intros Hc. revert l.
  induction fuel as [| fuel IH]; intros l; [constructor |].
  destruct l as [| a l']; [constructor |].
  cbn [batches_fuel]. constructor; [| apply IH].
  rewrite length_take. simpl. lia.
Qed.

Lemma batches_concat c l : 0 < c -> concat (batches c l) = l.
Proof. intros Hc. by apply batches_fuel_concat. Qed.

Lemma batches_length c l :
  0 < c -> length (batches c l) = ceil_div (length l) c.
Proof. intros Hc. by apply batches_fuel_length. Qed.

Lemma batches_bounded c l :
  0 < c -> Forall (fun b => 0 < length b /\ length b <= c) (batches c l).
Proof. intros Hc. by apply batches_fuel_bounded. Qed.

End Batches.

Lemma chunksize_pos : 0 < chunksize.
Proof. unfold chunksize. lia. Qed.

(** ** One write *)

Lemma for_chunks_cons sink t dtype chunk rest fault k tc s :
  for_chunks sink t dtype (chunk :: rest) fault k tc s =
  for_chunks sink t dtype rest fault (S k) (snd (choose_method t tc))
             (after_write sink t dtype chunk k tc s).
Proof.
  cbn [for_chunks]. unfold after_write, chunk_line.
  destruct (choose_method t tc) as [m tc'].
  unfold bind at 1. unfold try_except, bind, to_sql, print. cbn [fst snd].
  destruct (sink t (S k)); reflexivity.
Qed.

Lemma choose_method_settles t tc :
  fst (choose_method t (snd (choose_method t tc))) = append.
Proof.
  unfold choose_method.
  destruct (String.eqb t "relationships"); [| reflexivity].
  destruct tc; reflexivity.
Qed.

Lemma choose_method_append_stable t tc :
  fst (choose_method t tc) = append ->
  fst (choose_method t (snd (choose_method t tc))) = append.
Proof. intros _. apply choose_method_settles. Qed.

Lemma choose_method_other t tc :
  t <> "relationships" -> fst (choose_method t tc) = append.
Proof.
  intros Hne. unfold choose_method.
  destruct (String.eqb_spec t "relationships"); [contradiction | reflexivity].
Qed.

Lemma methods_of_settled t tc n :
  methods_of t (snd (choose_method t tc)) n = repeat append n.
Proof.
  destruct n as [| n]; [reflexivity |].
  cbn [methods_of repeat]. by rewrite choose_method_settles.
Qed.

(** ** The loop over the chunks *)

Section Loop.
Variable sink : string -> nat -> sink_outcome.
Variable t : string.
Variable dtype : list (string * sqltype).
Variable fault : option exn.

Lemma for_chunks_result chunks k tc s :
  snd (for_chunks sink t dtype chunks fault k tc s) =
  match fault with Some e => inl e | None => inr tt end.
Proof.
  revert k tc s. induction chunks as [| chunk rest IH]; intros k tc s.
  - simpl. by destruct fault.
  - rewrite for_chunks_cons. apply IH.
Qed.

Lemma for_chunks_stdout chunks k tc s :
  stdout (fst (for_chunks sink t dtype chunks fault k tc s)) =
  stdout s ++ map (chunk_line sink t) (seq (S k) (length chunks)).
Proof.
  revert k tc s. induction chunks as [| chunk rest IH]; intros k tc s.
  - simpl. rewrite app_nil_r. by destruct fault.
  - rewrite for_chunks_cons, IH. cbn [length seq map].
    unfold after_write. destruct (sink t (S k)) eqn:Hk; cbn [stdout];
      by rewrite <- app_assoc.
Qed.

Lemma for_chunks_calls chunks k tc s :
  sink_calls (fst (for_chunks sink t dtype chunks fault k tc s)) =
  sink_calls s ++
    zip_with (fun m ch => mkCall t m dtype (coerce_chunk t ch))
             (methods_of t tc (length chunks)) chunks.
Proof.
  revert k tc s. induction chunks as [| chunk rest IH]; intros k tc s.
  - simpl. rewrite app_nil_r. by destruct fault.
  - rewrite for_chunks_cons, IH, methods_of_settled.
    cbn [length methods_of zip_with].
    unfold after_write. destruct (sink t (S k)); cbn [sink_calls];
      by rewrite <- app_assoc.
Qed.

Lemma after_write_frame chunk k tc s t' :
  t' <> t -> db (after_write sink t dtype chunk k tc s) !! t' = db s !! t'.
Proof.
  intros Hne. unfold after_write.
  destruct (sink t (S k)); cbn [db]; try reflexivity;
    by rewrite lookup_insert_ne.
Qed.

Lemma for_chunks_frame chunks k tc s t' :
  t' <> t ->
  db (fst (for_chunks sink t dtype chunks fault k tc s)) !! t' = db s !! t'.
Proof.
  intros Hne. revert k tc s.
  induction chunks as [| chunk rest IH]; intros k tc s.
  - simpl. by destruct fault.
  - rewrite for_chunks_cons, IH. by apply after_write_frame.
Qed.

(** The table a write leaves depends on the database through that table
    only. *)
Lemma after_write_local chunk k tc s1 s2 :
  db s1 !! t = db s2 !! t ->
  db (after_write sink t dtype chunk k tc s1) !! t =
  db (after_write sink t dtype chunk k tc s2) !! t.
Proof.
  intros Heq. unfold after_write.
  destruct (sink t (S k)); cbn [db]; rewrite ?lookup_insert_eq, ?Heq; done.
Qed.

Lemma for_chunks_local chunks k tc s1 s2 :
  db s1 !! t = db s2 !! t ->
  db (fst (for_chunks sink t dtype chunks fault k tc s1)) !! t =
  db (fst (for_chunks sink t dtype chunks fault k tc s2)) !! t.
Proof.
  revert k tc s1 s2.
  induction chunks as [| chunk rest IH]; intros k tc s1 s2 Heq.
  - simpl. by destruct fault.
  - rewrite !for_chunks_cons. apply IH. by apply after_write_local.
Qed.

(** In append mode a write adds its rows when it succeeds and leaves the
    rows as they are when it fails. *)
Lemma after_write_rows_append chunk k tc s :
  fst (choose_method t tc) = append ->
  table_rows (after_write sink t dtype chunk k tc s) t =
  table_rows s t ++
    match sink t (S k) with Written => stored_rows t chunk | _ => [] end.
Proof.
  intros Hm. unfold after_write, table_rows. rewrite Hm.
  destruct (sink t (S k)); cbn [db]; rewrite ?lookup_insert_eq;
    destruct (db s !! t) as [tb |]; cbn; by rewrite ?app_nil_r.
Qed.

Lemma for_chunks_rows_append chunks k tc s :
  fst (choose_method t tc) = append ->
  table_rows (fst (for_chunks sink t dtype chunks fault k tc s)) t =
  table_rows s t ++ written_rows sink t k chunks.
Proof.
  revert k tc s. induction chunks as [| chunk rest IH]; intros k tc s Hm.
  - simpl. rewrite app_nil_r. by destruct fault.
  - rewrite for_chunks_cons, IH by by apply choose_method_append_stable.
    rewrite after_write_rows_append by done.
    cbn [written_rows]. by rewrite app_assoc.
Qed.

(** A write in replace mode that gets as far as creating the table
    leaves a table that owes nothing to the previous one. *)
Lemma after_write_replace chunk k tc s :
  fst (choose_method t tc) = replace ->
  (forall e, sink t (S k) <> FailsBefore e) ->
  db (after_write sink t dtype chunk k tc s) !! t =
  Some (mkTable (create_columns dtype (columns (coerce_chunk t chunk)))
                match sink t (S k) with
                | Written => stored_rows t chunk
                | _ => []
                end).
Proof.
  intros Hm Hok. unfold after_write. rewrite Hm.
  destruct (sink t (S k)) as [| e | e] eqn:Hk; cbn [db].
  - by rewrite lookup_insert_eq.
  - by destruct (Hok e).
  - by rewrite lookup_insert_eq.
Qed.

(** In append mode the columns of an existing table stay as they are. *)
Lemma after_write_columns_append chunk k tc s tb :
  fst (choose_method t tc) = append ->
  db s !! t = Some tb ->
  exists tb', db (after_write sink t dtype chunk k tc s) !! t = Some tb'
              /\ tcolumns tb' = tcolumns tb.
Proof.
  intros Hm Htb. unfold after_write. rewrite Hm, Htb.
  destruct (sink t (S k)); cbn [db default];
    rewrite ?lookup_insert_eq; eauto.
Qed.

Lemma for_chunks_columns_append chunks k tc s tb :
  fst (choose_method t tc) = append ->
  db s !! t = Some tb ->
  exists tb', db (fst (for_chunks sink t dtype chunks fault k tc s)) !! t = Some tb'
              /\ tcolumns tb' = tcolumns tb.
Proof.
  revert k tc s tb.
  induction chunks as [| chunk rest IH]; intros k tc s tb Hm Htb.
  - exists tb. split; [| done]. simpl. by destruct fault.
  - rewrite for_chunks_cons.
    destruct (after_write_columns_append chunk k tc s tb Hm Htb)
      as (tb1 & Htb1 & Hcols1).
    destruct (IH (S k) (snd (choose_method t tc)) _ tb1
                 (choose_method_append_stable _ _ Hm) Htb1)
      as (tb2 & Htb2 & Hcols2).
    exists tb2. split; [done | congruence].
Qed.

End Loop.

(** ** One dataset *)

Lemma load_csv_to_db_unfold fs sink csv t s :
  load_csv_to_db fs sink csv t s =
  let s0 := printed (Loading (path_join data_lake_dir csv) t) s in
  match open_reader fs csv t with
  | inl e => (s0, inl e)
  | inr r =>
      (for_chunks sink t (sql_dtype t) (reader_chunks r) (reader_fault r) 0 false ;;
       print (FinishedLoading t)) s0
  end.
Proof.
  unfold load_csv_to_db, open_reader, str_dtype, sql_dtype.
  unfold bind at 1. unfold print at 1. fold (printed (Loading (path_join data_lake_dir csv) t) s).
  cbv zeta.
  destruct (String.eqb t "relationships");
    destruct (read_csv _ _ _); reflexivity.
Qed.

Lemma load_item_unfold fs sink csv t s :
  load_item fs sink csv t s =
  let s0 := printed (Loading (path_join data_lake_dir csv) t) s in
  match open_reader fs csv t with
  | inl e => (printed (handler_line csv t e) s0, inr tt)
  | inr r =>
      let s1 := fst (for_chunks sink t (sql_dtype t) (reader_chunks r)
                                (reader_fault r) 0 false s0) in
      (printed match reader_fault r with
               | None => FinishedLoading t
               | Some e => handler_line csv t e
               end s1, inr tt)
  end.
Proof.
  unfold load_item, try_except. rewrite load_csv_to_db_unfold. cbv zeta.
  destruct (open_reader fs csv t) as [e | r].
  - unfold handler_line. destruct (is_EmptyDataError e); reflexivity.
  - unfold bind.
    pose proof (for_chunks_result sink t (sql_dtype t) (reader_fault r)
                  (reader_chunks r) 0 false
                  (printed (Loading (path_join data_lake_dir csv) t) s)) as Hres.
    destruct (for_chunks _ _ _ _ _ _ _ _) as [s1 res]. cbn [fst snd] in *.
    subst res. unfold handler_line.
    destruct (reader_fault r) as [e |]; [| reflexivity].
    destruct (is_EmptyDataError e); reflexivity.
Qed.

Section Item.
Variable fs : string -> source.
Variable sink : string -> nat -> sink_outcome.
Variables csv t : string.

Lemma load_item_result s : snd (load_item fs sink csv t s) = inr tt.
Proof. rewrite load_item_unfold. cbv zeta. by destruct (open_reader fs csv t). Qed.

Lemma load_item_stdout s :
  stdout (fst (load_item fs sink csv t s)) = stdout s ++ item_log fs sink csv t.
Proof.
  rewrite load_item_unfold. unfold item_log. cbv zeta.
  destruct (open_reader fs csv t) as [e | r]; cbn [fst stdout printed].
  - by rewrite <- app_assoc.
  - rewrite for_chunks_stdout. cbn [stdout printed].
    by rewrite <- !app_assoc.
Qed.

Lemma load_item_calls s :
  sink_calls (fst (load_item fs sink csv t s)) = sink_calls s ++ item_calls fs csv t.
Proof.
  rewrite load_item_unfold. unfold item_calls. cbv zeta.
  destruct (open_reader fs csv t) as [e | r]; cbn [fst sink_calls printed].
  - by rewrite app_nil_r.
  - by rewrite for_chunks_calls.
Qed.

Lemma load_item_frame s t' :
  t' <> t -> db (fst (load_item fs sink csv t s)) !! t' = db s !! t'.
Proof.
  intros Hne. rewrite load_item_unfold. cbv zeta.
  destruct (open_reader fs csv t) as [e | r]; cbn [fst db printed]; [done |].
  by rewrite for_chunks_frame.
Qed.

Lemma load_item_local s1 s2 :
  db s1 !! t = db s2 !! t ->
  db (fst (load_item fs sink csv t s1)) !! t =
  db (fst (load_item fs sink csv t s2)) !! t.
Proof.
  intros Heq. rewrite !load_item_unfold. cbv zeta.
  destruct (open_reader fs csv t) as [e | r]; cbn [fst db printed]; [done |].
  by apply for_chunks_local.
Qed.

Lemma load_item_unreadable s e :
  open_reader fs csv t = inl e -> db (fst (load_item fs sink csv t s)) = db s.
Proof. intros Hr. rewrite load_item_unfold, Hr. reflexivity. Qed.

Lemma load_item_rows_append s :
  t <> "relationships" ->
  table_rows (fst (load_item fs sink csv t s)) t =
  table_rows s t ++ loaded_rows fs sink csv t.
Proof.
  intros Hne. rewrite load_item_unfold. unfold loaded_rows. cbv zeta.
  destruct (open_reader fs csv t) as [e | r]; cbn [fst].
  - unfold table_rows. cbn [db printed]. by rewrite app_nil_r.
  - unfold table_rows at 1. cbn [db printed].
    fold (table_rows (fst (for_chunks sink t (sql_dtype t) (reader_chunks r)
            (reader_fault r) 0 false
            (printed (Loading (path_join data_lake_dir csv) t) s))) t).
    rewrite for_chunks_rows_append by by apply choose_method_other.
    reflexivity.
Qed.

End Item.

(** ** The reader *)

Lemma batches_cons_nonempty {A : Type} (c : nat) (a : A) (l : list A) :
  exists b bs, batches c (a :: l) = b :: bs.
Proof. unfold batches. simpl. eauto. Qed.

Lemma read_chunks_nonempty c str_cols header records :
  exists chunk rest, read_chunks c str_cols header records = chunk :: rest.
Proof.
  destruct records as [| r records]; [simpl; eauto |].
  destruct (batches_cons_nonempty c r records) as (b & bs & Hb).
  unfold read_chunks. rewrite Hb. simpl. eauto.
Qed.

Lemma read_chunks_columns c str_cols header records :
  Forall (fun ch => columns ch = header) (read_chunks c str_cols header records).
Proof.
  destruct records as [| r records]; [by repeat constructor |].
  unfold read_chunks. apply Forall_map, Forall_true. done.
Qed.

Lemma read_chunks_rows c str_cols header records :
  0 < c ->
  concat (map rows (read_chunks c str_cols header records)) =
  map (parse_record str_cols header) records.
Proof.
  intros Hc. destruct records as [| r records]; [reflexivity |].
  unfold read_chunks. rewrite map_map. cbn [rows].
  rewrite <- (batches_concat c (r :: records)) at 2 by done.
  generalize (batches c (r :: records)) as bs.
  induction bs as [| b bs IH]; [reflexivity |].
  cbn [map concat]. by rewrite map_app, IH.
Qed.

Lemma read_chunks_length c str_cols header records :
  0 < c ->
  length (read_chunks c str_cols header records) =
  Nat.max 1 (ceil_div (length records) c).
Proof.
  intros Hc. destruct records as [| r records].
  - simpl. by rewrite ceil_div_zero.
  - unfold read_chunks. rewrite length_map, batches_length by done.
    rewrite (ceil_div_step (length (r :: records)) c) by (simpl; lia). lia.
Qed.

Lemma open_reader_csv fs csv t header records :
  fs (path_join data_lake_dir csv) = Csv header records None ->
  open_reader fs csv t =
  inr (mkReader (read_chunks chunksize (str_dtype t) header records) None).
Proof. intros Hfs. unfold open_reader. by rewrite Hfs. Qed.

Lemma open_reader_faulting fs csv t header records e :
  fs (path_join data_lake_dir csv) = Csv header records (Some e) ->
  open_reader fs csv t =
  inr (mkReader (read_chunks_before_fault chunksize (str_dtype t) header records)
                (Some e)).
Proof. intros Hfs. unfold open_reader. by rewrite Hfs. Qed.

(** A reader that yields no chunk leaves the database as it is. *)
Lemma load_item_no_chunk fs sink csv t s r :
  open_reader fs csv t = inr r ->
  reader_chunks r = [] ->
  db (fst (load_item fs sink csv t s)) = db s.
Proof.
  intros Hr Hchunks. rewrite load_item_unfold, Hr, Hchunks. cbv zeta.
  simpl. by destruct (reader_fault r).
Qed.

(** ** The coercion of a chunk *)

Lemma where_notna_columns col chunk : columns (where_notna col chunk) = columns chunk.
Proof. reflexivity. Qed.

Lemma coerce_chunk_columns t chunk : columns (coerce_chunk t chunk) = columns chunk.
Proof.
  unfold coerce_chunk. destruct (String.eqb t "relationships"); [| reflexivity].
  cbn [fold_left].
  repeat (match goal with |- context [if ?b then _ else _] => destruct b end);
    reflexivity.
Qed.

(** ** The relationships table *)

Lemma choose_method_first : choose_method "relationships" false = (replace, true).
Proof. reflexivity. Qed.

(** When the write of the first chunk gets as far as creating the table,
    the table the dataset leaves is made of this run's chunks alone. *)
Lemma load_item_relationships fs sink csv s r chunk rest :
  open_reader fs csv "relationships" = inr r ->
  reader_chunks r = chunk :: rest ->
  (forall e, sink "relationships" 1 <> FailsBefore e) ->
  db (fst (load_item fs sink csv "relationships" s)) !! "relationships" =
  Some (mkTable (create_columns (sql_dtype "relationships") (columns chunk))
                (written_rows sink "relationships" 0 (chunk :: rest))).
Proof.
  intros Hr Hchunks Hok. rewrite load_item_unfold, Hr, Hchunks. cbv zeta.
  cbn [fst db printed]. rewrite for_chunks_cons.
  set (s0 := printed _ s).
  pose proof (after_write_replace sink "relationships" (sql_dtype "relationships")
                chunk 0 false s0 eq_refl Hok) as Hfirst.
  rewrite coerce_chunk_columns in Hfirst.
  set (s1 := after_write _ _ _ _ _ _ _) in *.
  destruct (for_chunks_columns_append sink "relationships"
              (sql_dtype "relationships") (reader_fault r) rest 1
              (snd (choose_method "relationships" false)) s1 _ eq_refl Hfirst)
    as (tb & Htb & Hcols).
  pose proof (for_chunks_rows_append sink "relationships"
                (sql_dtype "relationships") (reader_fault r) rest 1
                (snd (choose_method "relationships" false)) s1 eq_refl) as Hrows.
  unfold table_rows in Hrows. rewrite Htb, Hfirst in Hrows.
  rewrite Htb. destruct tb as [cols rws]. cbn in *. subst. reflexivity.
Qed.

Lemma load_item_relationships_determined fs sink csv s1 s2 r chunk rest :
  open_reader fs csv "relationships" = inr r ->
  reader_chunks r = chunk :: rest ->
  (forall e, sink "relationships" 1 <> FailsBefore e) ->
  db (fst (load_item fs sink csv "relationships" s1)) !! "relationships" =
  db (fst (load_item fs sink csv "relationships" s2)) !! "relationships".
Proof.
  intros Hr Hchunks Hok.
  by rewrite !(load_item_relationships fs sink csv _ r chunk rest).
Qed.

(** Loading relationships into a database whose relationships table is
    already the one a load leaves does not change that table. *)
Lemma load_item_relationships_fixpoint fs sink csv s1 s2 :
  (forall e, sink "relationships" 1 <> FailsBefore e) ->
  db s2 !! "relationships" =
    db (fst (load_item fs sink csv "relationships" s1)) !! "relationships" ->
  db (fst (load_item fs sink csv "relationships" s2)) !! "relationships" =
    db s2 !! "relationships".
Proof.
  intros Hok Heq.
  destruct (open_reader fs csv "relationships") as [e | r] eqn:Hr.
  - by rewrite (load_item_unreadable fs sink csv "relationships" s2 e).
  - destruct (reader_chunks r) as [| chunk rest] eqn:Hchunks.
    + by rewrite (load_item_no_chunk fs sink csv "relationships" s2 r).
    + rewrite Heq. by apply load_item_relationships_determined with r chunk rest.
Qed.

(** ** The loop over the datasets *)

Lemma table_rows_same s1 s2 t :
  db s1 !! t = db s2 !! t -> table_rows s1 t = table_rows s2 t.
Proof. intros Heq. unfold table_rows. by rewrite Heq. Qed.

Section Items.
Variable fs : string -> source.
Variable sink : string -> nat -> sink_outcome.

Lemma for_items_cons csv t rest s :
  for_items fs sink ((csv, t) :: rest) s =
  for_items fs sink rest (fst (load_item fs sink csv t s)).
Proof.
  cbn [for_items]. unfold bind.
  pose proof (load_item_result fs sink csv t s) as Hres.
  destruct (load_item fs sink csv t s) as [s' res]. cbn [fst snd] in *.
  by subst res.
Qed.

Lemma for_items_result items s : snd (for_items fs sink items s) = inr tt.
Proof.
  revert s. induction items as [| [csv t] rest IH]; intros s; [reflexivity |].
  rewrite for_items_cons. apply IH.
Qed.

Lemma for_items_stdout items s :
  stdout (fst (for_items fs sink items s)) =
  stdout s ++ concat (map (fun it => item_log fs sink it.1 it.2) items).
Proof.
  revert s. induction items as [| [csv t] rest IH]; intros s.
  - simpl. by rewrite app_nil_r.
  - rewrite for_items_cons, IH, load_item_stdout. cbn [map concat fst snd].
    by rewrite <- app_assoc.
Qed.

Lemma for_items_calls items s :
  sink_calls (fst (for_items fs sink items s)) =
  sink_calls s ++ concat (map (fun it => item_calls fs it.1 it.2) items).
Proof.
  revert s. induction items as [| [csv t] rest IH]; intros s.
  - simpl. by rewrite app_nil_r.
  - rewrite for_items_cons, IH, load_item_calls. cbn [map concat fst snd].
    by rewrite <- app_assoc.
Qed.

Lemma for_items_frame items s t :
  t ∉ map snd items ->
  db (fst (for_items fs sink items s)) !! t = db s !! t.
Proof.
  revert s. induction items as [| [csv t'] rest IH]; intros s Hnotin.
  - reflexivity.
  - cbn [map snd] in Hnotin. apply not_elem_of_cons in Hnotin as [Hne Hrest].
    rewrite for_items_cons, IH by done. by apply load_item_frame.
Qed.

Lemma for_items_rows_append items s csv t :
  NoDup (map snd items) ->
  (csv, t) ∈ items ->
  t <> "relationships" ->
  table_rows (fst (for_items fs sink items s)) t =
  table_rows s t ++ loaded_rows fs sink csv t.
Proof.
  intros Hnd Hin Hne. revert s.
  induction items as [| [csv' t'] rest IH]; intros s.
  - by apply elem_of_nil in Hin.
  - cbn [map snd] in Hnd. apply NoDup_cons in Hnd as [Hfresh Hnd].
    rewrite for_items_cons.
    apply elem_of_cons in Hin as [[= <- <-] | Hin].
    + rewrite (table_rows_same _ (fst (load_item fs sink csv t s)))
        by by apply for_items_frame.
      by apply load_item_rows_append.
    + assert (t ∈ map snd rest) as Ht.
      { apply list_elem_of_fmap. by exists (csv, t). }
      assert (t <> t') as Hne' by (intros ->; contradiction).
      rewrite IH by done. f_equal.
      apply table_rows_same. by apply load_item_frame.
Qed.

Lemma for_items_relationships_fixpoint items s1 s2 :
  NoDup (map snd items) ->
  (forall e, sink "relationships" 1 <> FailsBefore e) ->
  db s2 !! "relationships" =
    db (fst (for_items fs sink items s1)) !! "relationships" ->
  db (fst (for_items fs sink items s2)) !! "relationships" =
    db s2 !! "relationships".
Proof.
  intros Hnd Hok. revert s1 s2.
  induction items as [| [csv t] rest IH]; intros s1 s2 Heq; [reflexivity |].
  cbn [map snd] in Hnd. apply NoDup_cons in Hnd as [Hfresh Hnd].
  rewrite for_items_cons in *.
  destruct (decide (t = "relationships")) as [-> | Hne].
  - rewrite for_items_frame in * by done.
    by apply load_item_relationships_fixpoint with s1.
  - rewrite <- (load_item_frame fs sink csv t s2 "relationships") by done.
    apply IH with (fst (load_item fs sink csv t s1)); [done |].
    by rewrite load_item_frame.
Qed.

End Items.

Lemma files_and_tables_NoDup : NoDup (map snd files_and_tables).
Proof. apply (bool_decide_unpack _). vm_compute. exact I. Qed.

(** ** The whole run *)

Lemma main_unfold fs sink s :
  main fs sink s =
  (printed EtlComplete (fst (for_items fs sink files_and_tables s)), inr tt).
Proof.
  unfold main, bind.
  pose proof (for_items_result fs sink files_and_tables s) as Hres.
  destruct (for_items fs sink files_and_tables s) as [s' res].
  cbn [fst snd] in *. by subst res.
Qed.

Lemma run_db fs sink s :
  db (run fs sink s) = db (fst (for_items fs sink files_and_tables s)).
Proof. unfold run. by rewrite main_unfold. Qed.

Lemma run_table_rows fs sink s t :
  table_rows (run fs sink s) t =
  table_rows (fst (for_items fs sink files_and_tables s)) t.
Proof. apply table_rows_same. by rewrite run_db. Qed.

Lemma read_chunks_bounded c str_cols header records :
  0 < c ->
  Forall (fun ch => length (rows ch) <= c) (read_chunks c str_cols header records).
Proof.
  intros Hc. destruct records as [| r records].
  - repeat constructor. simpl. lia.
  - unfold read_chunks. apply Forall_map.
    eapply Forall_impl; [by apply batches_bounded |].
    intros b [_ Hb]. cbn [rows]. by rewrite length_map.
Qed.

Lemma is_Loading_chunk_lines sink t ns :
  List.filter is_Loading (map (chunk_line sink t) ns) = [].
Proof.
  induction ns as [| n ns IH]; [reflexivity |].
  cbn [map List.filter]. unfold chunk_line at 1.
  by destruct (sink t n).
Qed.

Lemma is_Loading_handler_line csv t e : is_Loading (handler_line csv t e) = false.
Proof. unfold handler_line. by destruct (is_EmptyDataError e). Qed.

Lemma is_Loading_item_log fs sink csv t :
  List.filter is_Loading (item_log fs sink csv t) =
  [Loading (path_join data_lake_dir csv) t].
Proof.
  unfold item_log. cbn [List.filter is_Loading]. f_equal.
  destruct (open_reader fs csv t) as [e | r].
  - cbn [List.filter]. by rewrite is_Loading_handler_line.
  - rewrite List.filter_app, is_Loading_chunk_lines. cbn [List.filter app].
    destruct (reader_fault r) as [e |]; [| reflexivity].
    by rewrite is_Loading_handler_line.
Qed.

Lemma is_Loading_items_log fs sink items :
  List.filter is_Loading (concat (map (fun it => item_log fs sink it.1 it.2) items)) =
  map (fun it => Loading (path_join data_lake_dir it.1) it.2) items.
Proof.
  induction items as [| [csv t] rest IH]; [reflexivity |].
  cbn [map concat]. rewrite List.filter_app, IH, is_Loading_item_log.
  reflexivity.
Qed.

(** * The claims *)

(** C3, as amended.  A source file that is read to its end, with a header
    and N data rows none of which has more fields than the header, is
    read, with chunk size C = 100000, as ceil(N/C) chunks when N >= 1 and
    as one chunk without rows when N = 0; in both cases the reading ends
    without a fault, every chunk carries the header's columns and at most
    C rows, and the rows of the chunks, taken in the order the chunks are
    produced, are the N source rows, each exactly once and in the order
    of the file. *)
Theorem C3_chunks_cover_the_rows_in_order header records str_cols :
  fits header records ->
  exists r,
    read_csv (Csv header records None) chunksize str_cols = inr r /\
    reader_fault r = None /\
    length (reader_chunks r) = Nat.max 1 (ceil_div (length records) chunksize) /\
    (1 <= length records ->
     length (reader_chunks r) = ceil_div (length records) chunksize) /\
    (length records = 0 -> reader_chunks r = [mkDataFrame header []]) /\
    concat (map rows (reader_chunks r)) = map (parse_record str_cols header) records /\
    Forall (fun ch => columns ch = header /\ length (rows ch) <= chunksize)
           (reader_chunks r).
Proof.
  intros _. eexists. split; [reflexivity |]. split; [reflexivity |].
  cbn [reader_chunks].
  pose proof chunksize_pos as Hc.
  pose proof (read_chunks_length chunksize str_cols header records Hc) as Hlen.
  repeat split.
  - exact Hlen.
  - intros Hn. rewrite Hlen.
    pose proof (ceil_div_spec (length records) chunksize Hc) as [Hup _].
    assert (1 <= ceil_div (length records) chunksize)
      by (destruct (ceil_div (length records) chunksize); lia).
    lia.
  - intros Hn. by destruct records.
  - by apply read_chunks_rows.
  - apply Forall_and. split.
    + apply read_chunks_columns.
    + by apply read_chunks_bounded.
Qed.

Lemma fits_repeat header record n :
  length record <= length header -> fits header (repeat record n).
Proof.
  intros Hlen. apply Forall_forall. intros x Hx.
  apply list_elem_of_In, repeat_spec in Hx. by subst.
Qed.

Lemma C3_chunks_cover_the_rows_in_order_witness :
  exists r,
    read_csv (Csv ["individual_id"; "father_id"; "mother_id"]
                  (repeat ["7"; ""; ""] (S chunksize)) None)
             chunksize ["individual_id"; "father_id"; "mother_id"] = inr r /\
    length (reader_chunks r) = 2.
Proof.
  destruct (C3_chunks_cover_the_rows_in_order
              ["individual_id"; "father_id"; "mother_id"]
              (repeat ["7"; ""; ""] (S chunksize))
              ["individual_id"; "father_id"; "mother_id"])
    as (r & Hr & _ & Hlen & _).
  - apply fits_repeat. simpl. lia.
  - exists r. split; [exact Hr |]. rewrite Hlen, repeat_length.
    vm_compute. reflexivity.
Defined.

(** C3, the claim as stated fails on a file that has a header and no data
    row: the reader produces one chunk, where ceil(0/100000) is 0. *)
Lemma C3_header_only_file_gives_one_chunk :
  exists r,
    read_csv (Csv ["individual_id"; "father_id"; "mother_id"] [] None) chunksize
             ["individual_id"; "father_id"; "mother_id"] = inr r /\
    length (reader_chunks r) = 1 /\
    ceil_div 0 chunksize = 0 /\
    length (reader_chunks r) <> ceil_div 0 chunksize.
Proof.
  eexists. split; [reflexivity |].
  rewrite (ceil_div_zero chunksize chunksize_pos). simpl. repeat split; lia.
Qed.

(** C4.  Whatever the source files hold and whatever state the database
    is in, when the sink does not refuse the first write of relationships
    outright, running the pipeline twice in succession leaves the
    relationships table, the replace-mode table, exactly as one run
    leaves it: same columns, same rows, same row count. *)
Theorem C4_rerun_leaves_relationships_unchanged fs sink s :
  (forall e, sink "relationships" 1 <> FailsBefore e) ->
  db (run fs sink (run fs sink s)) !! "relationships" =
    db (run fs sink s) !! "relationships" /\
  table_rows (run fs sink (run fs sink s)) "relationships" =
    table_rows (run fs sink s) "relationships" /\
  row_count (run fs sink (run fs sink s)) "relationships" =
    row_count (run fs sink s) "relationships".
Proof.
  intros Hok.
  assert (db (run fs sink (run fs sink s)) !! "relationships" =
          db (run fs sink s) !! "relationships") as Heq.
  { rewrite (run_db fs sink (run fs sink s)).
    apply for_items_relationships_fixpoint with s;
      [apply files_and_tables_NoDup | done | by rewrite run_db]. }
  split; [done |].
  assert (table_rows (run fs sink (run fs sink s)) "relationships" =
          table_rows (run fs sink s) "relationships") as Hrows
    by by apply table_rows_same.
  split; [done |]. unfold row_count. by rewrite Hrows.
Qed.

(** C5.  For every configured table other than relationships, the
    append-only tables, a run adds the rows it loads after the rows the
    table holds; so on a table that starts without rows, loading the same
    input twice with nothing cleared in between leaves exactly twice the
    row count of one load. *)
Theorem C5_second_load_doubles_append_only_tables fs sink s csv t :
  In (csv, t) files_and_tables ->
  t <> "relationships" ->
  row_count s t = 0 ->
  table_rows (run fs sink s) t = table_rows s t ++ loaded_rows fs sink csv t /\
  table_rows (run fs sink (run fs sink s)) t =
    table_rows (run fs sink s) t ++ loaded_rows fs sink csv t /\
  row_count (run fs sink (run fs sink s)) t = 2 * row_count (run fs sink s) t.
Proof.
  intros Hin Hne Hempty. apply list_elem_of_In in Hin.
  assert (forall s0, table_rows (run fs sink s0) t =
                     table_rows s0 t ++ loaded_rows fs sink csv t) as Hrun.
  { intros s0. rewrite run_table_rows.
    apply for_items_rows_append; [apply files_and_tables_NoDup | done | done]. }
  split; [apply Hrun |]. split; [apply Hrun |].
  unfold row_count in *. rewrite (Hrun (run fs sink s)), (Hrun s).
  rewrite !length_app, Hempty. lia.
Qed.

(** C7.  Whatever the files hold and however the sink answers, the run
    returns without an exception; it prints one [Loading] line for every
    configured dataset, in the order of the registry, and its last line is
    the completion line. *)
Theorem C7_every_dataset_is_processed_and_the_run_completes fs sink s :
  snd (main fs sink s) = inr tt /\
  exists out,
    stdout (run fs sink s) = stdout s ++ out ++ [EtlComplete] /\
    out = concat (map (fun it => item_log fs sink it.1 it.2) files_and_tables) /\
    List.filter is_Loading out =
      map (fun it => Loading (path_join data_lake_dir it.1) it.2) files_and_tables.
Proof.
  split; [by rewrite main_unfold |].
  eexists. split; [| split; [reflexivity |]].
  - unfold run. rewrite main_unfold. cbn [fst stdout printed].
    by rewrite for_items_stdout, <- app_assoc.
  - apply is_Loading_items_log.
Qed.

(** ** Concrete runs *)

Lemma C4_rerun_leaves_relationships_unchanged_witness :
  db (run small_lake healthy_sink (run small_lake healthy_sink empty_state))
    !! "relationships" =
  db (run small_lake healthy_sink empty_state) !! "relationships".
Proof.
  apply (C4_rerun_leaves_relationships_unchanged small_lake healthy_sink empty_state).
  intros e. discriminate.
Defined.

Lemma C5_second_load_doubles_append_only_tables_witness :
  row_count (run small_lake healthy_sink (run small_lake healthy_sink empty_state))
            "individuals" =
  2 * row_count (run small_lake healthy_sink empty_state) "individuals".
Proof.
  apply (C5_second_load_doubles_append_only_tables small_lake healthy_sink
           empty_state "individuals.csv" "individuals").
  - simpl. tauto.
  - discriminate.
  - reflexivity.
Defined.

(** ** The coercion, cell by cell *)

Lemma coerce_chunk_relationships chunk :
  coerce_chunk "relationships" chunk =
  normalize_column (normalize_column chunk "father_id") "mother_id".
Proof. reflexivity. Qed.

Lemma where_notna_row_length col cols row :
  length (where_notna_row col cols row) = length row.
Proof.
  revert row. induction cols as [| c cols IH]; intros [| v row]; simpl; auto.
Qed.

Lemma where_notna_row_lookup col cols row j c v :
  cols !! j = Some c ->
  row !! j = Some v ->
  where_notna_row col cols row !! j =
  Some (if String.eqb c col then (if notna v then v else PyNone) else v).
Proof.
  revert row j. induction cols as [| c' cols IH]; intros [| v' row] [| j];
    simpl; try discriminate.
  - by intros [= ->] [= ->].
  - apply IH.
Qed.

Lemma mem_string_false_lookup col cols j c :
  mem_string col cols = false -> cols !! j = Some c -> String.eqb c col = false.
Proof.
  unfold mem_string. revert j. induction cols as [| c' cols IH]; intros [| j];
    simpl; try discriminate.
  - intros Hm [= ->]. apply orb_false_iff in Hm as [Hm _].
    by rewrite String.eqb_sym.
  - intros Hm. apply orb_false_iff in Hm as [_ Hm]. by apply IH.
Qed.

Lemma normalize_column_columns ch col : columns (normalize_column ch col) = columns ch.
Proof. unfold normalize_column. by destruct (mem_string col (columns ch)). Qed.

Lemma normalize_column_lookup ch col i row :
  rows ch !! i = Some row ->
  exists row',
    rows (normalize_column ch col) !! i = Some row' /\
    length row' = length row /\
    forall j c v, columns ch !! j = Some c -> row !! j = Some v ->
      row' !! j = Some (if String.eqb c col then (if notna v then v else PyNone) else v).
Proof.
  intros Hrow. unfold normalize_column.
  destruct (mem_string col (columns ch)) eqn:Hmem.
  - exists (where_notna_row col (columns ch) row). cbn [rows where_notna].
    split; [by rewrite list_lookup_fmap, Hrow |].
    split; [apply where_notna_row_length |].
    intros j c v. apply where_notna_row_lookup.
  - exists row. split; [done |]. split; [done |].
    intros j c v Hc Hv. by rewrite (mem_string_false_lookup col _ j c Hmem Hc).
Qed.

Lemma normalize_column_length ch col :
  length (rows (normalize_column ch col)) = length (rows ch).
Proof.
  unfold normalize_column. destruct (mem_string col (columns ch)); [| done].
  cbn [rows where_notna]. apply length_map.
Qed.

Lemma coerce_chunk_lookup chunk i row :
  rows chunk !! i = Some row ->
  exists row',
    rows (coerce_chunk "relationships" chunk) !! i = Some row' /\
    length row' = length row /\
    forall j col v, columns chunk !! j = Some col -> row !! j = Some v ->
      row' !! j = Some (coerced_cell col v).
Proof.
  intros Hrow. rewrite coerce_chunk_relationships.
  destruct (normalize_column_lookup chunk "father_id" i row Hrow)
    as (row1 & Hrow1 & Hlen1 & Hcells1).
  destruct (normalize_column_lookup _ "mother_id" i row1 Hrow1)
    as (row2 & Hrow2 & Hlen2 & Hcells2).
  exists row2. split; [done |]. split; [congruence |].
  intros j col v Hcol Hv.
  rewrite (Hcells2 j col _ (eq_trans (f_equal (.!! j) (normalize_column_columns _ _)) Hcol)
             (Hcells1 j col v Hcol Hv)).
  f_equal. unfold coerced_cell.
  destruct (String.eqb col "father_id"), (String.eqb col "mother_id"), v;
    reflexivity.
Qed.

(** C10.  On a chunk of relationships the coercion keeps the columns, the
    number of rows, their order and the length of every row; in a row it
    changes a cell only when the cell's column is father_id or mother_id
    and the value is missing, and then to the null marker.  Every cell of
    another column, individual_id among them, is as it was. *)
Theorem C10_coercion_changes_only_missing_parent_ids chunk :
  columns (coerce_chunk "relationships" chunk) = columns chunk /\
  length (rows (coerce_chunk "relationships" chunk)) = length (rows chunk) /\
  (forall i row, rows chunk !! i = Some row ->
     exists row',
       rows (coerce_chunk "relationships" chunk) !! i = Some row' /\
       length row' = length row /\
       forall j col v, columns chunk !! j = Some col -> row !! j = Some v ->
         row' !! j = Some (coerced_cell col v) /\
         (col <> "father_id" -> col <> "mother_id" -> row' !! j = Some v) /\
         (notna v = true -> row' !! j = Some v)) /\
  coerced_cell "individual_id" NaN = NaN.
Proof.
  split; [apply coerce_chunk_columns |]. split.
  { rewrite coerce_chunk_relationships. by rewrite !normalize_column_length. }
  split; [| reflexivity].
  intros i row Hrow.
  destruct (coerce_chunk_lookup chunk i row Hrow) as (row' & Hrow' & Hlen & Hcells).
  exists row'. split; [done |]. split; [done |].
  intros j col v Hcol Hv. rewrite (Hcells j col v Hcol Hv).
  split; [done |]. unfold coerced_cell. split.
  - intros Hf Hm.
    apply String.eqb_neq in Hf. apply String.eqb_neq in Hm.
    by rewrite Hf, Hm.
  - intros Hna. rewrite Hna. by rewrite andb_false_r.
Qed.

(** ** What relationships stores *)

Lemma normalize_column_rows ch col :
  rows (normalize_column ch col) = map (normalize_row (columns ch) col) (rows ch).
Proof.
  unfold normalize_column, normalize_row.
  destruct (mem_string col (columns ch)); [reflexivity |].
  by rewrite map_id.
Qed.

Lemma coerce_chunk_rows ch :
  rows (coerce_chunk "relationships" ch) = map (coerce_row (columns ch)) (rows ch).
Proof.
  rewrite coerce_chunk_relationships, !normalize_column_rows.
  rewrite normalize_column_columns, map_map. reflexivity.
Qed.

Lemma normalize_row_lookup cols col row j c v :
  cols !! j = Some c ->
  row !! j = Some v ->
  normalize_row cols col row !! j =
  Some (if String.eqb c col then (if notna v then v else PyNone) else v).
Proof.
  intros Hc Hv. unfold normalize_row.
  destruct (mem_string col cols) eqn:Hmem.
  - by apply where_notna_row_lookup.
  - by rewrite (mem_string_false_lookup col cols j c Hmem Hc).
Qed.

Lemma coerce_row_lookup cols row j c v :
  cols !! j = Some c ->
  row !! j = Some v ->
  coerce_row cols row !! j = Some (coerced_cell c v).
Proof.
  intros Hc Hv. unfold coerce_row.
  rewrite (normalize_row_lookup cols "mother_id" _ j c _ Hc
             (normalize_row_lookup cols "father_id" row j c v Hc Hv)).
  f_equal. unfold coerced_cell.
  destruct (String.eqb c "father_id"), (String.eqb c "mother_id"), v; reflexivity.
Qed.

Lemma parse_record_lookup str_cols header record j col :
  header !! j = Some col ->
  parse_record str_cols header record !! j =
  Some (parse_field str_cols col (nth j record "")).
Proof.
  revert record j. induction header as [| c header IH]; intros record [| j];
    simpl; try discriminate.
  - intros [= ->]. by destruct record.
  - intros Hcol. rewrite (IH (tl record) j Hcol).
    destruct record; [by destruct j | reflexivity].
Qed.

Lemma written_rows_healthy sink t k chunks :
  (forall n, sink t n = Written) ->
  written_rows sink t k chunks = concat (map (stored_rows t) chunks).
Proof.
  intros Hok. revert k. induction chunks as [| ch rest IH]; intros k; [reflexivity |].
  cbn [written_rows map concat]. by rewrite Hok, IH.
Qed.

Lemma stored_rows_relationships header chunks :
  Forall (fun ch => columns ch = header) chunks ->
  concat (map (stored_rows "relationships") chunks) =
  map (fun row => map sql_value (coerce_row header row)) (concat (map rows chunks)).
Proof.
  induction 1 as [| ch rest Hcols _ IH]; [reflexivity |].
  cbn [map concat]. rewrite map_app, IH. f_equal.
  unfold stored_rows. by rewrite coerce_chunk_rows, Hcols, map_map.
Qed.

Lemma assoc_create_columns dtype cols col :
  In col cols ->
  assoc col (create_columns dtype cols) = Some (default InferredType (assoc col dtype)).
Proof.
  induction cols as [| c cols IH]; [intros [] |].
  intros Hin. cbn [create_columns map assoc].
  destruct (String.eqb_spec col c) as [-> | Hne]; [reflexivity |].
  destruct Hin as [-> | Hin]; [contradiction |]. by apply IH.
Qed.

Lemma for_items_lookup_item fs sink items s csv t :
  NoDup (map snd items) ->
  (csv, t) ∈ items ->
  exists s0,
    db (fst (for_items fs sink items s)) !! t =
    db (fst (load_item fs sink csv t s0)) !! t.
Proof.
  intros Hnd Hin. revert s.
  induction items as [| [csv' t'] rest IH]; intros s.
  - by apply elem_of_nil in Hin.
  - cbn [map snd] in Hnd. apply NoDup_cons in Hnd as [Hfresh Hnd].
    rewrite for_items_cons.
    apply elem_of_cons in Hin as [[= <- <-] | Hin].
    + exists s. by apply for_items_frame.
    + by apply IH.
Qed.

(** The relationships table a run leaves when its first write reaches
    the table. *)
Lemma run_relationships_table fs sink s header records :
  fs (path_join data_lake_dir "relationships.csv") = Csv header records None ->
  (forall e, sink "relationships" 1 <> FailsBefore e) ->
  db (run fs sink s) !! "relationships" =
  Some (mkTable (create_columns (sql_dtype "relationships") header)
                (written_rows sink "relationships" 0
                   (read_chunks chunksize (str_dtype "relationships") header records))).
Proof.
  intros Hfs Hok. rewrite run_db.
  destruct (for_items_lookup_item fs sink files_and_tables s
              "relationships.csv" "relationships" files_and_tables_NoDup)
    as [s0 ->].
  { apply list_elem_of_In. simpl. tauto. }
  pose proof (open_reader_csv fs _ "relationships" _ _ Hfs) as Hr.
  destruct (read_chunks_nonempty chunksize (str_dtype "relationships") header records)
    as (chunk & rest & Hchunks).
  rewrite (load_item_relationships fs sink _ s0 _ chunk rest Hr Hchunks Hok).
  pose proof (read_chunks_columns chunksize (str_dtype "relationships") header records)
    as Hcols.
  rewrite Hchunks in Hcols. apply Forall_cons in Hcols as [-> _].
  by rewrite Hchunks.
Qed.

(** C9.  After a run that reads relationships.csv to its end, no record
    of it having more fields than the header, and whose writes of
    relationships succeed, the columns individual_id, father_id and
    mother_id of the relationships table, where the file has them, have
    the declared type Text; the table has one row per record of the file,
    in order; and in every row the cell of father_id and of mother_id is
    NULL when the field of the record is missing (absent, empty or one of
    the missing-value spellings) and the field's text otherwise, hence
    never the empty string. *)
Theorem C9_parent_ids_are_text_and_missing_is_null fs sink s header records :
  fs (path_join data_lake_dir "relationships.csv") = Csv header records None ->
  fits header records ->
  (forall n, sink "relationships" n = Written) ->
  exists tb,
    db (run fs sink s) !! "relationships" = Some tb /\
    (forall col, In col ["individual_id"; "father_id"; "mother_id"] ->
                 In col header -> assoc col (tcolumns tb) = Some Text) /\
    length (trows tb) = length records /\
    forall i record j col,
      records !! i = Some record ->
      header !! j = Some col ->
      col = "father_id" \/ col = "mother_id" ->
      exists row,
        trows tb !! i = Some row /\
        row !! j = Some (if mem_string (nth j record "") STR_NA_VALUES
                         then SqlNull else SqlText (nth j record "")) /\
        row !! j <> Some (SqlText "").
Proof.
  intros Hfs _ Hok. eexists. split.
  { apply (run_relationships_table fs sink s header records Hfs).
    intros e. by rewrite Hok. }
  cbn [tcolumns trows].
  rewrite written_rows_healthy by done.
  rewrite (stored_rows_relationships header) by apply read_chunks_columns.
  rewrite read_chunks_rows by apply chunksize_pos.
  rewrite map_map. split; [| split].
  - intros col Hcol Hin. rewrite assoc_create_columns by done.
    simpl in Hcol. destruct Hcol as [<- | [<- | [<- | []]]]; reflexivity.
  - by rewrite length_map.
  - intros i record j col Hrec Hcol Hparent.
    eexists. split; [by rewrite list_lookup_fmap, Hrec |].
    rewrite list_lookup_fmap.
    rewrite (coerce_row_lookup header _ j col _ Hcol
               (parse_record_lookup _ header record j col Hcol)).
    cbn [fmap option_fmap option_map].
    assert (sql_value (coerced_cell col
              (parse_field (str_dtype "relationships") col (nth j record ""))) =
            if mem_string (nth j record "") STR_NA_VALUES
            then SqlNull else SqlText (nth j record "")) as ->.
    { unfold parse_field.
      destruct (mem_string (nth j record "") STR_NA_VALUES);
        destruct Hparent as [-> | ->]; reflexivity. }
    split; [done |].
    destruct (mem_string (nth j record "") STR_NA_VALUES) eqn:Hna; [done |].
    intros [= Hempty]. rewrite Hempty in Hna. discriminate.
Qed.

Lemma C9_parent_ids_are_text_and_missing_is_null_witness :
  exists tb,
    db (run small_lake healthy_sink previous_state) !! "relationships" = Some tb /\
    assoc "father_id" (tcolumns tb) = Some Text /\
    length (trows tb) = 2 /\
    (exists row, trows tb !! 0 = Some row /\ row !! 1 = Some SqlNull) /\
    (exists row, trows tb !! 1 = Some row /\ row !! 2 = Some (SqlText "2")).
Proof.
  destruct (C9_parent_ids_are_text_and_missing_is_null small_lake healthy_sink
              previous_state ["individual_id"; "father_id"; "mother_id"]
              [["3"; ""; "1"]; ["4"; "NA"; "2"]] eq_refl)
    as (tb & Htb & Htypes & Hlen & Hcells).
  - repeat constructor.
  - intros n. reflexivity.
  - exists tb. split; [exact Htb |]. split; [| split; [exact Hlen | split]].
    + apply Htypes; simpl; tauto.
    + destruct (Hcells 0 ["3"; ""; "1"] 1 "father_id" eq_refl eq_refl
                  (or_introl eq_refl)) as (row & Hrow & Hcell & _).
      exists row. split; [exact Hrow | exact Hcell].
    + destruct (Hcells 1 ["4"; "NA"; "2"] 2 "mother_id" eq_refl eq_refl
                  (or_intror eq_refl)) as (row & Hrow & Hcell & _).
      exists row. split; [exact Hrow | exact Hcell].
Defined.

(** ** Failed chunks *)

Lemma chunks_attempted_app t out1 out2 :
  chunks_attempted t (out1 ++ out2) = chunks_attempted t out1 + chunks_attempted t out2.
Proof. unfold chunks_attempted. by rewrite List.filter_app, length_app. Qed.

Lemma chunks_failed_app t out1 out2 :
  chunks_failed t (out1 ++ out2) = chunks_failed t out1 + chunks_failed t out2.
Proof. unfold chunks_failed. by rewrite List.filter_app, length_app. Qed.

Lemma chunks_attempted_chunk_lines sink t ns :
  chunks_attempted t (map (chunk_line sink t) ns) = length ns.
Proof.
  unfold chunks_attempted. induction ns as [| n ns IH]; [reflexivity |].
  cbn [map List.filter]. unfold chunk_line at 1.
  destruct (sink t n); rewrite String.eqb_refl; simpl; by rewrite IH.
Qed.

Lemma chunks_failed_chunk_lines sink t ns :
  chunks_failed t (map (chunk_line sink t) ns) =
  length (List.filter (fun n => negb (is_Written (sink t n))) ns).
Proof.
  unfold chunks_failed. induction ns as [| n ns IH]; [reflexivity |].
  cbn [map List.filter]. unfold chunk_line at 1.
  destruct (sink t n); cbn [is_Written negb]; rewrite ?String.eqb_refl;
    simpl; by rewrite IH.
Qed.

Lemma count_in_seq k a n :
  length (List.filter (Nat.eqb k) (seq a n)) =
  if Nat.leb a k && Nat.ltb k (a + n) then 1 else 0.
Proof.
  revert a. induction n as [| n IH]; intros a.
  - simpl. destruct (Nat.leb_spec a k), (Nat.ltb_spec k (a + 0)); simpl; lia.
  - cbn [seq List.filter]. destruct (Nat.eqb_spec k a) as [-> | Hne].
    + cbn [length]. rewrite IH.
      destruct (Nat.leb_spec (S a) a), (Nat.leb_spec a a),
        (Nat.ltb_spec a (a + S n)); simpl; lia.
    + rewrite IH.
      destruct (Nat.leb_spec (S a) k), (Nat.leb_spec a k),
        (Nat.ltb_spec k (S a + n)), (Nat.ltb_spec k (a + S n)); simpl; lia.
Qed.

Lemma written_rows_after sink t off chunks :
  (forall j, off < j -> sink t j = Written) ->
  written_rows sink t off chunks = concat (map (stored_rows t) chunks).
Proof.
  revert off. induction chunks as [| ch rest IH]; intros off Hok; [reflexivity |].
  cbn [written_rows map concat].
  rewrite Hok by lia. rewrite IH; [done |]. intros j Hj. apply Hok. lia.
Qed.

(** With one failing write, the rows written are those of all the other
    chunks. *)
Lemma written_rows_one_failure sink t k off chunks :
  (forall j, j <> k -> sink t j = Written) ->
  is_Written (sink t k) = false ->
  off < k <= off + length chunks ->
  written_rows sink t off chunks =
  concat (map (stored_rows t) (delete (k - 1 - off) chunks)).
Proof.
  intros Hothers Hk. revert off.
  induction chunks as [| ch rest IH]; intros off Hrange.
  - simpl in Hrange. lia.
  - cbn [written_rows length] in *.
    destruct (decide (k = S off)) as [-> | Hne].
    + replace (S off - 1 - off) with 0 by lia. cbn [delete list_delete].
      destruct (sink t (S off)); [discriminate | |];
        (rewrite written_rows_after; [done |]; intros j Hj; apply Hothers; lia).
    + rewrite Hothers by lia.
      replace (k - 1 - off) with (S (k - 1 - S off)) by lia.
      cbn [delete list_delete map concat]. f_equal. apply IH. lia.
Qed.

Lemma after_write_rows_suffix sink t dtype chunk k tc s :
  exists prefix,
    table_rows (after_write sink t dtype chunk k tc s) t =
    prefix ++ match sink t (S k) with Written => stored_rows t chunk | _ => [] end.
Proof.
  unfold after_write, table_rows.
  destruct (sink t (S k)); cbn [db].
  - rewrite lookup_insert_eq. cbn [trows]. eauto.
  - eexists. by rewrite app_nil_r.
  - eexists. by rewrite app_nil_r.
Qed.

(** Whatever the table and whatever fails, the rows of the chunks the
    sink accepted end the table, in order. *)
Lemma load_item_rows_suffix fs sink csv t s r :
  open_reader fs csv t = inr r ->
  exists prefix,
    table_rows (fst (load_item fs sink csv t s)) t =
    prefix ++ written_rows sink t 0 (reader_chunks r).
Proof.
  intros Hr. rewrite load_item_unfold, Hr. cbv zeta. cbn [fst].
  set (s0 := printed _ s).
  destruct (reader_chunks r) as [| chunk rest].
  - exists (table_rows s t). rewrite app_nil_r. apply table_rows_same.
    simpl. by destruct (reader_fault r).
  - rewrite for_chunks_cons.
    destruct (after_write_rows_suffix sink t (sql_dtype t) chunk 0 false s0)
      as [prefix Hprefix].
    exists prefix.
    rewrite (table_rows_same _
               (fst (for_chunks sink t (sql_dtype t) rest (reader_fault r) 1
                       (snd (choose_method t false))
                       (after_write sink t (sql_dtype t) chunk 0 false s0))))
      by reflexivity.
    rewrite for_chunks_rows_append by apply choose_method_settles.
    rewrite Hprefix. cbn [written_rows]. by rewrite app_assoc.
Qed.

Lemma item_calls_frames fs csv t r :
  open_reader fs csv t = inr r ->
  map call_frame (item_calls fs csv t) = map (coerce_chunk t) (reader_chunks r).
Proof.
  intros Hr. unfold item_calls. rewrite Hr.
  generalize (reader_chunks r) as chunks. intros chunks.
  generalize false as tc. induction chunks as [| ch rest IH]; intros tc.
  - reflexivity.
  - cbn [length methods_of zip_with map call_frame]. f_equal.
    specialize (IH (snd (choose_method t tc))).
    by rewrite methods_of_settled in IH.
Qed.

Lemma item_calls_methods fs csv t r :
  open_reader fs csv t = inr r ->
  map call_method (item_calls fs csv t) =
  methods_of t false (length (reader_chunks r)).
Proof.
  intros Hr. unfold item_calls. rewrite Hr.
  generalize (reader_chunks r) as chunks. intros chunks.
  generalize false as tc. induction chunks as [| ch rest IH]; intros tc.
  - reflexivity.
  - cbn [length methods_of zip_with map call_method]. f_equal.
    specialize (IH (snd (choose_method t tc))).
    by rewrite methods_of_settled in IH.
Qed.

Lemma repeat_lookup {A : Type} (x y : A) n i : repeat x n !! i = Some y -> y = x.
Proof.
  revert i. induction n as [| n IH]; intros [| i]; simpl; try discriminate.
  - by intros [= ->].
  - apply IH.
Qed.

(** C6.  For every dataset with a well-formed source, when the write of
    one chunk, number [k], fails and the other writes succeed: the dataset
    is processed to its end without an exception and closes with its
    finished line, not with a critical error; the log has an error line
    carrying the chunk number and the table name for chunk [k] and a
    loaded line for every other chunk; one chunk is counted as failed;
    [to_sql] is called once per chunk, in order, so nothing is retried;
    every call after the first of the dataset uses append; and the rows
    of all the chunks but [k] end the table, in order. *)
Theorem C6_one_failed_write_is_logged_and_passed_over
    fs sink csv t header records s k e :
  fs (path_join data_lake_dir csv) = Csv header records None ->
  1 <= k <= length (read_chunks chunksize (str_dtype t) header records) ->
  sink t k = FailsBefore e \/ sink t k = FailsAfterCreate e ->
  (forall j, j <> k -> sink t j = Written) ->
  let chunks := read_chunks chunksize (str_dtype t) header records in
  let s' := fst (load_item fs sink csv t s) in
  snd (load_item fs sink csv t s) = inr tt /\
  stdout s' =
    stdout s ++
    Loading (path_join data_lake_dir csv) t ::
    map (fun j => if Nat.eqb j k then ErrorLoadingChunk k t e else ChunkLoaded j t)
        (seq 1 (length chunks)) ++
    [FinishedLoading t] /\
  chunks_attempted t (stdout s') = chunks_attempted t (stdout s) + length chunks /\
  chunks_failed t (stdout s') = chunks_failed t (stdout s) + 1 /\
  (exists calls,
     sink_calls s' = sink_calls s ++ calls /\
     map call_frame calls = map (coerce_chunk t) chunks /\
     forall i c, calls !! i = Some c -> 1 <= i -> call_method c = append) /\
  exists prefix,
    table_rows s' t = prefix ++ concat (map (stored_rows t) (delete (k - 1) chunks)).
Proof.
  intros Hfs Hrange Hfail Hothers chunks s'.
  pose proof (open_reader_csv fs csv t header records Hfs) as Hr.
  assert (is_Written (sink t k) = false) as Hnot
    by (destruct Hfail as [-> | ->]; reflexivity).
  assert (forall j, chunk_line sink t j =
                    if Nat.eqb j k then ErrorLoadingChunk k t e else ChunkLoaded j t)
    as Hline.
  { intros j. unfold chunk_line. destruct (Nat.eqb_spec j k) as [-> | Hne].
    - by destruct Hfail as [-> | ->].
    - by rewrite Hothers. }
  assert (stdout s' = stdout s ++ item_log fs sink csv t) as Hout
    by apply load_item_stdout.
  unfold item_log in Hout. rewrite Hr in Hout.
  cbn [reader_chunks reader_fault] in Hout. fold chunks in Hout.
  split; [apply load_item_result |]. split.
  { rewrite Hout. do 2 f_equal. f_equal. apply map_ext. exact Hline. }
  split.
  { rewrite Hout.
    change (Loading (path_join data_lake_dir csv) t ::
            map (chunk_line sink t) (seq 1 (length chunks)) ++ [FinishedLoading t])
      with ([Loading (path_join data_lake_dir csv) t] ++
            map (chunk_line sink t) (seq 1 (length chunks)) ++ [FinishedLoading t]).
    rewrite !chunks_attempted_app, chunks_attempted_chunk_lines, length_seq.
    unfold chunks_attempted at 2 3. simpl. lia. }
  split.
  { rewrite Hout.
    change (Loading (path_join data_lake_dir csv) t ::
            map (chunk_line sink t) (seq 1 (length chunks)) ++ [FinishedLoading t])
      with ([Loading (path_join data_lake_dir csv) t] ++
            map (chunk_line sink t) (seq 1 (length chunks)) ++ [FinishedLoading t]).
    rewrite !chunks_failed_app, chunks_failed_chunk_lines.
    rewrite (List.filter_ext _ (Nat.eqb k)).
    - rewrite count_in_seq.
      destruct (Nat.leb_spec 1 k), (Nat.ltb_spec k (1 + length chunks));
        unfold chunks, chunks_failed in *; simpl; lia.
    - intros j. destruct (Nat.eqb_spec k j) as [<- | Hne].
      + by rewrite Hnot.
      + by rewrite Hothers. }
  split.
  { exists (item_calls fs csv t). split; [apply load_item_calls |].
    split; [by rewrite (item_calls_frames fs csv t _ Hr) |].
    intros i c Hc Hi.
    assert (map call_method (item_calls fs csv t) !! i = Some (call_method c)) as Hm
      by by rewrite list_lookup_fmap, Hc.
    rewrite (item_calls_methods fs csv t _ Hr) in Hm.
    destruct (length (reader_chunks _)) as [| n]; [discriminate |].
    destruct i as [| i]; [lia |]. cbn [methods_of lookup list_lookup] in Hm.
    by apply repeat_lookup in Hm. }
  destruct (load_item_rows_suffix fs sink csv t s _ Hr) as [prefix Hprefix].
  exists prefix. fold s' in Hprefix. rewrite Hprefix. f_equal.
  cbn [reader_chunks]. fold chunks.
  rewrite (written_rows_one_failure sink t k 0 chunks Hothers Hnot) by (fold chunks in Hrange; lia).
  by rewrite Nat.sub_0_r.
Qed.

Lemma C6_one_failed_write_is_logged_and_passed_over_witness :
  stdout (fst (load_item three_chunk_lake second_write_fails "individuals.csv"
                         "individuals" previous_state)) =
  [ Loading "data_lake/individuals.csv" "individuals";
    ChunkLoaded 1 "individuals";
    ErrorLoadingChunk 2 "individuals" (OtherError "OperationalError");
    ChunkLoaded 3 "individuals";
    FinishedLoading "individuals" ] /\
  chunks_failed "individuals"
    (stdout (fst (load_item three_chunk_lake second_write_fails "individuals.csv"
                            "individuals" previous_state))) = 1.
Proof.
  pose proof (C6_one_failed_write_is_logged_and_passed_over
                three_chunk_lake second_write_fails "individuals.csv" "individuals"
                ["individual_id"] (repeat ["7"] (S (chunksize + chunksize)))
                previous_state 2 (OtherError "OperationalError") eq_refl) as H.
  cbv zeta in H. destruct H as (_ & Hout & _ & Hfailed & _).
  - vm_compute. lia.
  - left. reflexivity.
  - intros j Hj. unfold second_write_fails.
    destruct (Nat.eqb_spec j 2); [contradiction | reflexivity].
  - split.
    + rewrite Hout. vm_compute. reflexivity.
    + rewrite Hfailed. reflexivity.
Defined.

(** ** Empty and unreadable sources *)

Lemma coerce_chunk_no_rows t header :
  rows (coerce_chunk t (mkDataFrame header [])) = [].
Proof.
  unfold coerce_chunk. destruct (String.eqb t "relationships"); [| reflexivity].
  cbn [fold_left]. unfold where_notna.
  repeat (match goal with |- context [if ?b then _ else _] => destruct b end);
    reflexivity.
Qed.

Lemma read_chunks_before_fault_length c str_cols header records :
  0 < c ->
  length (read_chunks_before_fault c str_cols header records) = length records / c.
Proof.
  intros Hc. unfold read_chunks_before_fault.
  rewrite length_map, batches_length by done.
  rewrite length_take.
  pose proof (Nat.Div0.mul_div_le (length records) c) as Hle.
  rewrite Nat.min_l by done.
  unfold ceil_div. generalize (length records / c) as q. intros q.
  replace (c * q + c - 1) with (q * c + (c - 1)) by lia.
  rewrite Nat.div_add_l by lia. rewrite Nat.div_small by lia. lia.
Qed.

(** C8, as amended.  A file with no content at all is never read as
    chunks: the dataset prints its warning, nothing is written and the
    run goes on.  A file with a header and no data row is read as one
    chunk without rows, which is written: the dataset closes with its
    finished line, one chunk attempted, and no row added.  A missing
    file, or a file that cannot be opened, closes that dataset alone with
    a critical error, nothing written.  A reader that fails part-way has
    yielded only the chunks of 100000 records it read in full before the
    failure, none when it fails within the first 100000 records; they
    have their lines and their writes, and the dataset closes with a
    critical error.  In every case the dataset returns without an
    exception, so the next dataset is loaded. *)
Theorem C8_empty_header_only_and_unreadable_sources fs sink csv t s :
  let path := path_join data_lake_dir csv in
  let s' := fst (load_item fs sink csv t s) in
  snd (load_item fs sink csv t s) = inr tt /\
  (fs path = EmptyFile ->
     stdout s' = stdout s ++ [Loading path t; WarningEmpty csv] /\
     sink_calls s' = sink_calls s /\
     db s' = db s /\
     chunks_attempted t (stdout s') = chunks_attempted t (stdout s)) /\
  (forall header,
     fs path = Csv header [] None ->
     sink t 1 = Written ->
     stdout s' = stdout s ++ [Loading path t; ChunkLoaded 1 t; FinishedLoading t] /\
     (exists c, sink_calls s' = sink_calls s ++ [c] /\
                columns (call_frame c) = header /\ rows (call_frame c) = []) /\
     chunks_attempted t (stdout s') = chunks_attempted t (stdout s) + 1 /\
     table_rows s' t = if String.eqb t "relationships" then [] else table_rows s t) /\
  (fs path = Missing ->
     stdout s' = stdout s ++ [Loading path t; CriticalError csv t FileNotFoundError] /\
     sink_calls s' = sink_calls s /\
     db s' = db s) /\
  (forall e,
     fs path = Unreadable e ->
     is_EmptyDataError e = false ->
     stdout s' = stdout s ++ [Loading path t; CriticalError csv t e] /\
     sink_calls s' = sink_calls s /\
     db s' = db s) /\
  (forall header records e,
     fs path = Csv header records (Some e) ->
     is_EmptyDataError e = false ->
     stdout s' =
       stdout s ++
       Loading path t ::
       map (chunk_line sink t) (seq 1 (length records / chunksize)) ++
       [CriticalError csv t e] /\
     length (sink_calls s') = length (sink_calls s) + length records / chunksize /\
     (length records < chunksize ->
      stdout s' = stdout s ++ [Loading path t; CriticalError csv t e] /\
      sink_calls s' = sink_calls s /\
      db s' = db s)).
Proof.
  intros path s'. split; [apply load_item_result |].
  pose proof (load_item_stdout fs sink csv t s) as Hout.
  pose proof (load_item_calls fs sink csv t s) as Hcalls.
  fold s' in Hout, Hcalls. unfold item_log in Hout. unfold item_calls in Hcalls.
  split; [| split; [| split; [| split]]].
  - intros Hfs.
    assert (open_reader fs csv t = inl EmptyDataError) as Hr
      by (unfold open_reader; fold path; by rewrite Hfs).
    rewrite Hr in Hout, Hcalls. rewrite app_nil_r in Hcalls.
    split; [exact Hout |]. split; [exact Hcalls |].
    split; [by apply load_item_unreadable with EmptyDataError |].
    rewrite Hout, chunks_attempted_app.
    match goal with |- _ + ?n = _ => change n with 0 end. lia.
  - intros header Hfs Hok.
    pose proof (open_reader_csv fs csv t header [] Hfs) as Hr.
    rewrite Hr in Hout, Hcalls.
    cbn [reader_chunks reader_fault read_chunks length seq map app] in Hout, Hcalls.
    unfold chunk_line in Hout. rewrite Hok in Hout.
    split; [exact Hout |]. split.
    { eexists. split; [exact Hcalls |]. cbn [call_frame].
      split; [apply coerce_chunk_columns | apply coerce_chunk_no_rows]. }
    split.
    { rewrite Hout, chunks_attempted_app.
      match goal with
      | |- _ + ?n = _ =>
          assert (n = 1) as -> by (unfold chunks_attempted; cbn [List.filter];
                                   by rewrite String.eqb_refl)
      end.
      lia. }
    destruct (String.eqb_spec t "relationships") as [-> | Hne].
    + unfold table_rows, s'.
      rewrite (load_item_relationships fs sink csv s _ (mkDataFrame header []) []
                 Hr eq_refl) by (intros e0; by rewrite Hok).
      cbn [trows written_rows]. rewrite Hok, app_nil_r.
      unfold stored_rows. by rewrite coerce_chunk_no_rows.
    + unfold s'. rewrite load_item_rows_append by done.
      unfold loaded_rows. rewrite Hr. cbn [reader_chunks read_chunks written_rows].
      rewrite Hok. unfold stored_rows. rewrite coerce_chunk_no_rows.
      by rewrite !app_nil_r.
  - intros Hfs.
    assert (open_reader fs csv t = inl FileNotFoundError) as Hr
      by (unfold open_reader; fold path; by rewrite Hfs).
    rewrite Hr in Hout, Hcalls. rewrite app_nil_r in Hcalls.
    split; [exact Hout |]. split; [exact Hcalls |].
    by apply load_item_unreadable with FileNotFoundError.
  - intros e Hfs He.
    assert (open_reader fs csv t = inl e) as Hr
      by (unfold open_reader; fold path; by rewrite Hfs).
    rewrite Hr in Hout, Hcalls. rewrite app_nil_r in Hcalls.
    unfold handler_line in Hout. rewrite He in Hout.
    split; [exact Hout |]. split; [exact Hcalls |].
    by apply load_item_unreadable with e.
  - intros header records e Hfs He.
    pose proof (open_reader_faulting fs csv t header records e Hfs) as Hr.
    pose proof (read_chunks_before_fault_length chunksize (str_dtype t) header records
                  chunksize_pos) as Hlen.
    pose proof (item_calls_frames fs csv t _ Hr) as Hframes.
    rewrite Hr in Hout, Hcalls. cbn [reader_chunks reader_fault] in Hout, Hcalls, Hframes.
    rewrite Hlen in Hout. unfold handler_line in Hout. rewrite He in Hout.
    split; [exact Hout |]. split.
    { unfold s'. rewrite (load_item_calls fs sink csv t s), length_app. f_equal.
      rewrite <- (length_map call_frame), Hframes, length_map. exact Hlen. }
    intros Hshort.
    assert (read_chunks_before_fault chunksize (str_dtype t) header records = [])
      as Hnil.
    { apply length_zero_iff_nil. rewrite Hlen. by apply Nat.div_small. }
    rewrite (Nat.div_small _ _ Hshort) in Hout.
    rewrite Hnil in Hcalls. cbn [length methods_of zip_with] in Hcalls.
    rewrite app_nil_r in Hcalls.
    split; [exact Hout |]. split; [exact Hcalls |].
    by apply (load_item_no_chunk fs sink csv t s _ Hr).
Qed.

(** C8, the claim as stated fails on a file that has a header and no data
    row: the load yields one chunk and the log counts one chunk attempted,
    not zero. *)
Lemma C8_header_only_file_attempts_one_chunk :
  let s' := fst (load_item header_only_lake healthy_sink "individuals.csv"
                           "individuals" empty_state) in
  stdout s' = [ Loading "data_lake/individuals.csv" "individuals";
                ChunkLoaded 1 "individuals";
                FinishedLoading "individuals" ] /\
  length (sink_calls s') = 1 /\
  chunks_attempted "individuals" (stdout s') = 1 /\
  chunks_attempted "individuals" (stdout s') <> 0.
Proof. vm_compute. repeat split; lia. Qed.

(** ** Replace and append *)

Lemma methods_of_relationships n :
  methods_of "relationships" false (S n) = replace :: repeat append n.
Proof. reflexivity. Qed.

Lemma methods_of_other t n :
  t <> "relationships" -> methods_of t false n = repeat append n.
Proof.
  intros Hne. destruct n as [| n]; [reflexivity |].
  cbn [methods_of repeat]. by rewrite choose_method_other.
Qed.

(** C1, as amended.  For the relationships dataset the first chunk the
    reader yields in a run is written with replace and every later chunk
    with append, so that, when there is a chunk and its write reaches the
    table, the table holds the rows written in this run and none from
    before.  For every other configured dataset every chunk, the first
    included, is written with append, and the rows written in this run
    follow the rows the table held. *)
Theorem C1_replace_then_append_is_for_relationships_only fs sink csv t r s :
  In (csv, t) files_and_tables ->
  open_reader fs csv t = inr r ->
  let chunks := reader_chunks r in
  let s' := fst (load_item fs sink csv t s) in
  (exists calls,
     sink_calls s' = sink_calls s ++ calls /\
     map call_frame calls = map (coerce_chunk t) chunks /\
     map call_method calls =
       if String.eqb t "relationships"
       then match chunks with
            | [] => []
            | _ :: rest => replace :: repeat append (length rest)
            end
       else repeat append (length chunks)) /\
  (t = "relationships" ->
   chunks <> [] ->
   (forall e, sink t 1 <> FailsBefore e) ->
   table_rows s' t = written_rows sink t 0 chunks) /\
  (t <> "relationships" ->
   table_rows s' t = table_rows s t ++ written_rows sink t 0 chunks).
Proof.
  intros _ Hr chunks s'.
  split; [| split].
  - exists (item_calls fs csv t). split; [apply load_item_calls |].
    split; [by rewrite (item_calls_frames fs csv t _ Hr) |].
    rewrite (item_calls_methods fs csv t _ Hr). fold chunks.
    destruct (String.eqb_spec t "relationships") as [-> | Hne].
    + destruct chunks as [| chunk rest]; [reflexivity |].
      cbn [length]. apply methods_of_relationships.
    + by apply methods_of_other.
  - intros -> Hchunks Hok.
    unfold chunks in *.
    destruct (reader_chunks r) as [| chunk rest] eqn:Hrc; [done |].
    unfold table_rows, s'.
    by rewrite (load_item_relationships fs sink csv s _ chunk rest Hr Hrc Hok).
  - intros Hne. unfold s'. rewrite load_item_rows_append by done.
    unfold loaded_rows. by rewrite Hr.
Qed.

Lemma C1_replace_then_append_is_for_relationships_only_witness :
  (exists calls,
     sink_calls (fst (load_item two_chunk_lake healthy_sink "relationships.csv"
                                "relationships" previous_state)) =
       sink_calls previous_state ++ calls /\
     map call_method calls = [replace; append]) /\
  table_rows (fst (load_item two_chunk_lake healthy_sink "relationships.csv"
                             "relationships" previous_state)) "relationships"
    !! 0 = Some [SqlText "7"; SqlNull; SqlNull] /\
  table_rows (fst (load_item two_chunk_lake healthy_sink "relationships.csv"
                             "relationships" previous_state)) "relationships"
    !! chunksize = Some [SqlText "7"; SqlNull; SqlNull] /\
  table_rows (fst (load_item two_chunk_lake healthy_sink "relationships.csv"
                             "relationships" previous_state)) "relationships"
    !! S chunksize = None.
Proof.
  pose proof (C1_replace_then_append_is_for_relationships_only
                two_chunk_lake healthy_sink "relationships.csv" "relationships"
                (mkReader (read_chunks chunksize (str_dtype "relationships")
                             ["individual_id"; "father_id"; "mother_id"]
                             (repeat ["7"; ""; ""] (S chunksize))) None)
                previous_state) as H.
  cbv zeta in H. destruct H as ((calls & Hcalls & _ & Hmethods) & Hrows & _).
  - simpl. tauto.
  - reflexivity.
  - split.
    + exists calls. split; [exact Hcalls |]. rewrite Hmethods. vm_compute. reflexivity.
    + rewrite Hrows.
      * repeat split; vm_compute; reflexivity.
      * reflexivity.
      * cbn [reader_chunks].
        destruct (read_chunks_nonempty chunksize (str_dtype "relationships")
                    ["individual_id"; "father_id"; "mother_id"]
                    (repeat ["7"; ""; ""] (S chunksize))) as (ch & rest & Heq).
        rewrite Heq. discriminate.
      * intros e. discriminate.
Defined.

(** C1, the claim as stated fails on a configured dataset other than
    relationships: the first chunk of individuals is written with append,
    and a second run adds the same row again. *)
Lemma C1_first_chunk_of_individuals_is_appended :
  In ("individuals.csv", "individuals") files_and_tables /\
  map call_method
      (sink_calls (fst (load_csv_to_db small_lake healthy_sink "individuals.csv"
                                       "individuals" empty_state))) = [append] /\
  table_rows (run small_lake healthy_sink empty_state) "individuals" =
    [[SqlInferred "1"]] /\
  table_rows (run small_lake healthy_sink (run small_lake healthy_sink empty_state))
             "individuals" = [[SqlInferred "1"]; [SqlInferred "1"]].
Proof. split; [simpl; tauto |]. vm_compute. repeat split. Qed.

(** C2, as amended.  For relationships the write in replace mode is the
    one of the first chunk the reader yields in the run, whether it
    succeeds or fails, and of no later chunk.  When the first write
    reaches the table, the table's columns are those of the first chunk,
    with the declared types, and no later chunk changes them.  When the
    first write fails before reaching the table, the later chunks are
    appended to the table that was there: its columns stay and the rows
    of the later chunks that are written follow the rows it held. *)
Theorem C2_replace_goes_with_the_first_chunk fs sink csv r chunk rest s :
  open_reader fs csv "relationships" = inr r ->
  reader_chunks r = chunk :: rest ->
  let s' := fst (load_item fs sink csv "relationships" s) in
  (exists calls,
     sink_calls s' = sink_calls s ++ calls /\
     length calls = S (length rest) /\
     forall i c, calls !! i = Some c -> (call_method c = replace <-> i = 0)) /\
  ((forall e, sink "relationships" 1 <> FailsBefore e) ->
   exists tb, db s' !! "relationships" = Some tb /\
              tcolumns tb = create_columns (sql_dtype "relationships") (columns chunk)) /\
  (forall e tb,
     sink "relationships" 1 = FailsBefore e ->
     db s !! "relationships" = Some tb ->
     exists tb', db s' !! "relationships" = Some tb' /\
                 tcolumns tb' = tcolumns tb /\
                 trows tb' = trows tb ++ written_rows sink "relationships" 1 rest).
Proof.
  intros Hr Hchunks s'.
  split; [| split].
  - exists (item_calls fs csv "relationships"). split; [apply load_item_calls |].
    split.
    { rewrite <- (length_map call_frame), (item_calls_frames fs csv _ _ Hr).
      by rewrite length_map, Hchunks. }
    intros i c Hc.
    assert (map call_method (item_calls fs csv "relationships") !! i =
            Some (call_method c)) as Hm by by rewrite list_lookup_fmap, Hc.
    rewrite (item_calls_methods fs csv _ _ Hr) in Hm.
    rewrite Hchunks in Hm. cbn [length] in Hm.
    rewrite methods_of_relationships in Hm.
    destruct i as [| i]; cbn [lookup list_lookup] in Hm.
    + injection Hm as <-. done.
    + apply repeat_lookup in Hm. rewrite Hm. split; [discriminate | lia].
  - intros Hok. eexists. split.
    + unfold s'. apply (load_item_relationships fs sink csv s _ chunk rest Hr Hchunks Hok).
    + reflexivity.
  - intros e tb Hfail Htb.
    assert (db (after_write sink "relationships" (sql_dtype "relationships")
                  chunk 0 false (printed (Loading (path_join data_lake_dir csv)
                                            "relationships") s))
              !! "relationships" = Some tb) as Hafter
      by (unfold after_write; rewrite Hfail; exact Htb).
    assert (db s' = db (fst (for_chunks sink "relationships" (sql_dtype "relationships") rest
                        (reader_fault r) 1
                        (snd (choose_method "relationships" false))
                        (after_write sink "relationships" (sql_dtype "relationships")
                           chunk 0 false
                           (printed (Loading (path_join data_lake_dir csv)
                                       "relationships") s))))) as Hs'.
    { unfold s'. rewrite load_item_unfold, Hr. cbv zeta. cbn [fst].
      by rewrite Hchunks, for_chunks_cons. }
    destruct (for_chunks_columns_append sink "relationships"
                (sql_dtype "relationships") (reader_fault r) rest 1
                (snd (choose_method "relationships" false)) _ tb
                (choose_method_settles _ _) Hafter) as (tb' & Htb' & Hcols).
    exists tb'. rewrite Hs'. split; [exact Htb' |]. split; [exact Hcols |].
    pose proof (for_chunks_rows_append sink "relationships"
                  (sql_dtype "relationships") (reader_fault r) rest 1
                  (snd (choose_method "relationships" false))
                  (after_write sink "relationships" (sql_dtype "relationships")
                     chunk 0 false
                     (printed (Loading (path_join data_lake_dir csv)
                                 "relationships") s))
                  (choose_method_settles _ _)) as Hrows.
    unfold table_rows in Hrows. rewrite Htb', Hafter in Hrows. exact Hrows.
Qed.

(** The first chunk of a file that has a record. *)
Lemma read_chunks_cons c str_cols header record records :
  read_chunks c str_cols header (record :: records) =
  mkDataFrame header (map (parse_record str_cols header) (take c (record :: records)))
  :: map (fun b => mkDataFrame header (map (parse_record str_cols header) b))
         (batches_fuel (length records) c (drop c (record :: records))).
Proof. reflexivity. Qed.

Lemma C2_replace_goes_with_the_first_chunk_witness :
  exists tb',
    db (fst (load_item two_chunk_lake first_write_fails "relationships.csv"
                       "relationships" previous_state)) !! "relationships" = Some tb' /\
    tcolumns tb' =
      [("individual_id", Text); ("father_id", Text); ("mother_id", Text)] /\
    trows tb' = [[SqlText "1"; SqlNull; SqlNull]; [SqlText "7"; SqlNull; SqlNull]].
Proof.
  pose proof (C2_replace_goes_with_the_first_chunk
                two_chunk_lake first_write_fails "relationships.csv"
                (mkReader (read_chunks chunksize (str_dtype "relationships")
                             ["individual_id"; "father_id"; "mother_id"]
                             (repeat ["7"; ""; ""] (S chunksize))) None)
                _ _ previous_state eq_refl
                (read_chunks_cons chunksize (str_dtype "relationships")
                   ["individual_id"; "father_id"; "mother_id"]
                   ["7"; ""; ""] (repeat ["7"; ""; ""] chunksize))) as H.
  cbv zeta in H. destruct H as (_ & _ & Happend).
  destruct (Happend (OtherError "OperationalError") _ eq_refl eq_refl)
    as (tb' & Htb' & Hcols & Hrows).
  exists tb'. split; [exact Htb' |]. split; [exact Hcols |].
  rewrite Hrows. vm_compute. reflexivity.
Defined.

(** C2, the claim as stated fails when the write of the first chunk
    fails: the second chunk, the next one whose write succeeds, is
    written with append, and the table keeps the columns and the row an
    earlier run left, with the row of the second chunk after it. *)
Lemma C2_chunk_after_failed_first_write_is_appended :
  let s' := fst (load_csv_to_db two_chunk_lake first_write_fails
                                "relationships.csv" "relationships" previous_state) in
  first_write_fails "relationships" 1 = FailsBefore (OtherError "OperationalError") /\
  first_write_fails "relationships" 2 = Written /\
  map call_method (sink_calls s') = [replace; append] /\
  db s' !! "relationships" =
    Some (mkTable [("individual_id", Text); ("father_id", Text); ("mother_id", Text)]
                  [[SqlText "1"; SqlNull; SqlNull]; [SqlText "7"; SqlNull; SqlNull]]).
Proof. vm_compute. repeat split. Qed.

(** * Further properties of the loader *)

(** ** What a run reads and what it touches *)

(** A run leaves every table that is not a destination of the registry
    exactly as it was. *)
Theorem run_leaves_unconfigured_tables fs sink s t :
  ~ In t (map snd files_and_tables) ->
  db (run fs sink s) !! t = db s !! t.
Proof.
  intros Hnotin. rewrite run_db. apply for_items_frame.
  by rewrite list_elem_of_In.
Qed.

Lemma run_leaves_unconfigured_tables_witness :
  db (run small_lake healthy_sink previous_state) !! "audit_log" =
  Some (mkTable [("event", InferredType)] [[SqlInferred "loaded"]]).
Proof.
  rewrite (run_leaves_unconfigured_tables small_lake healthy_sink previous_state
             "audit_log").
  - reflexivity.
  - simpl. intros H. repeat (destruct H as [H | H]; [discriminate H |]). exact H.
Defined.

(** The [to_sql] calls a run issues, with their tables, methods, declared
    types and frames, are the same however the sink answers: a failed
    write is neither retried nor a reason to skip or change a later one. *)
Theorem run_calls_do_not_depend_on_the_sink fs sink1 sink2 s :
  sink_calls (run fs sink1 s) = sink_calls (run fs sink2 s).
Proof.
  unfold run. rewrite !main_unfold. cbn [fst sink_calls printed].
  by rewrite !for_items_calls.
Qed.

Lemma load_item_same_file fs1 fs2 sink csv t s :
  fs1 (path_join data_lake_dir csv) = fs2 (path_join data_lake_dir csv) ->
  load_item fs1 sink csv t s = load_item fs2 sink csv t s.
Proof.
  intros Heq. rewrite !load_item_unfold. unfold open_reader. by rewrite Heq.
Qed.

Lemma for_items_same_files fs1 fs2 sink items s :
  (forall csv t, In (csv, t) items ->
     fs1 (path_join data_lake_dir csv) = fs2 (path_join data_lake_dir csv)) ->
  for_items fs1 sink items s = for_items fs2 sink items s.
Proof.
  revert s. induction items as [| [csv t] rest IH]; intros s Hsame; [reflexivity |].
  rewrite !for_items_cons.
  rewrite (load_item_same_file fs1 fs2 sink csv t s) by (apply (Hsame csv t); by left).
  apply IH. intros csv' t' Hin. apply (Hsame csv' t'). by right.
Qed.

(** A run reads the ten files of the registry under [data_lake] and
    nothing else: two file systems that agree on those paths give the
    same database, the same output and the same calls. *)
Theorem run_reads_only_the_configured_files fs1 fs2 sink s :
  (forall csv t, In (csv, t) files_and_tables ->
     fs1 (path_join data_lake_dir csv) = fs2 (path_join data_lake_dir csv)) ->
  main fs1 sink s = main fs2 sink s.
Proof.
  intros Hsame. rewrite !main_unfold.
  by rewrite (for_items_same_files fs1 fs2 sink files_and_tables s Hsame).
Qed.

Lemma run_reads_only_the_configured_files_witness :
  main other_lake healthy_sink empty_state = main small_lake healthy_sink empty_state.
Proof.
  apply (run_reads_only_the_configured_files other_lake small_lake healthy_sink
           empty_state).
  intros csv t Hin. simpl in Hin.
  repeat (destruct Hin as [[= <- <-] | Hin]; [reflexivity |]). destruct Hin.
Defined.

(** Outside relationships a run never removes or reorders a row: the
    rows a table held are still there, in order, before whatever the run
    added, whatever the files hold and however the sink answers. *)
Theorem run_keeps_the_rows_outside_relationships fs sink s t :
  t <> "relationships" ->
  exists added,
    table_rows (run fs sink s) t = table_rows s t ++ added /\
    row_count s t <= row_count (run fs sink s) t.
Proof.
  intros Hne.
  assert (exists added, table_rows (run fs sink s) t = table_rows s t ++ added)
    as [added Hadded].
  { destruct (decide (t ∈ map snd files_and_tables)) as [Hin | Hnotin].
    - apply list_elem_of_fmap in Hin as ([csv t'] & -> & Hin). cbn [snd] in *.
      exists (loaded_rows fs sink csv t'). rewrite run_table_rows.
      by apply for_items_rows_append; [apply files_and_tables_NoDup | |].
    - exists []. rewrite app_nil_r. apply table_rows_same.
      rewrite run_db. by apply for_items_frame. }
  exists added. split; [done |]. unfold row_count. rewrite Hadded, length_app. lia.
Qed.

Lemma run_keeps_the_rows_outside_relationships_witness :
  (exists added,
     table_rows (run small_lake healthy_sink previous_state) "individuals" =
     [[SqlInferred "1"]] ++ added /\
     1 <= row_count (run small_lake healthy_sink previous_state) "individuals") /\
  row_count (run small_lake healthy_sink previous_state) "individuals" = 2.
Proof.
  split.
  - apply (run_keeps_the_rows_outside_relationships small_lake healthy_sink
             previous_state "individuals").
    discriminate.
  - vm_compute. reflexivity.
Defined.

(** ** The calls of a run *)

Lemma item_calls_tables fs csv t :
  Forall (fun c => call_table c = t /\ call_dtype c = sql_dtype t) (item_calls fs csv t).
Proof.
  unfold item_calls. destruct (open_reader fs csv t) as [e | r]; [constructor |].
  generalize (methods_of t false (length (reader_chunks r))) as ms.
  induction (reader_chunks r) as [| ch rest IH]; intros [| m ms]; simpl;
    constructor; auto.
Qed.

Lemma replace_count_app calls1 calls2 :
  replace_count (calls1 ++ calls2) = replace_count calls1 + replace_count calls2.
Proof. unfold replace_count. by rewrite List.filter_app, length_app. Qed.

Lemma replace_count_methods calls :
  replace_count calls = length (List.filter is_replace (map call_method calls)).
Proof.
  unfold replace_count. induction calls as [| c calls IH]; [reflexivity |].
  cbn [map List.filter]. destruct (is_replace (call_method c)); simpl; by rewrite IH.
Qed.

Lemma filter_replace_repeat n : List.filter is_replace (repeat append n) = [].
Proof. induction n as [| n IH]; [reflexivity | exact IH]. Qed.

Lemma item_calls_replace_count fs csv t :
  replace_count (item_calls fs csv t) <= if String.eqb t "relationships" then 1 else 0.
Proof.
  rewrite replace_count_methods.
  destruct (open_reader fs csv t) as [e | r] eqn:Hr.
  - unfold item_calls. rewrite Hr. simpl. lia.
  - rewrite (item_calls_methods fs csv t r Hr).
    destruct (String.eqb_spec t "relationships") as [-> | Hne].
    + destruct (length (reader_chunks r)) as [| n]; [simpl; lia |].
      rewrite methods_of_relationships. cbn [List.filter is_replace].
      rewrite filter_replace_repeat. simpl. lia.
    + rewrite methods_of_other by done. rewrite filter_replace_repeat. simpl. lia.
Qed.

Lemma item_calls_methods_other fs csv t :
  t <> "relationships" ->
  Forall (fun c => call_method c = append) (item_calls fs csv t).
Proof.
  intros Hne. destruct (open_reader fs csv t) as [e | r] eqn:Hr.
  - unfold item_calls. rewrite Hr. constructor.
  - pose proof (item_calls_methods fs csv t r Hr) as Hm.
    rewrite methods_of_other in Hm by done.
    apply Forall_forall. intros c Hc.
    apply list_elem_of_lookup in Hc as [i Hi].
    apply (repeat_lookup append (call_method c) (length (reader_chunks r)) i).
    by rewrite <- Hm, list_lookup_fmap, Hi.
Qed.

(** Every call of a run writes to a destination of the registry and
    declares column types for relationships alone; a call in replace mode
    can only be on relationships, and a run issues at most one: no other
    table is ever dropped. *)
Theorem run_replaces_only_relationships fs sink s :
  exists calls,
    sink_calls (run fs sink s) = sink_calls s ++ calls /\
    Forall (fun c => In (call_table c) (map snd files_and_tables) /\
                     call_dtype c = sql_dtype (call_table c) /\
                     (call_method c = replace -> call_table c = "relationships"))
           calls /\
    replace_count calls <= 1.
Proof.
  exists (concat (map (fun it => item_calls fs it.1 it.2) files_and_tables)).
  split.
  { unfold run. rewrite main_unfold. cbn [fst sink_calls printed].
    apply for_items_calls. }
  split.
  - apply Forall_concat, Forall_map, Forall_forall.
    intros [csv t] Hin. cbn [fst snd].
    pose proof (item_calls_tables fs csv t) as Htables.
    destruct (decide (t = "relationships")) as [-> | Hne].
    + eapply Forall_impl; [exact Htables |].
      intros c [Ht Hd]. rewrite Ht. split; [simpl; tauto |]. by split.
    + pose proof (item_calls_methods_other fs csv t Hne) as Hmethods.
      assert (Forall (fun c => (call_table c = t /\ call_dtype c = sql_dtype t) /\
                               call_method c = append) (item_calls fs csv t)) as Hboth
        by (apply Forall_and; by split).
      eapply Forall_impl; [exact Hboth |].
      intros c [[Ht Hd] Hm]. rewrite Ht. split.
      * apply list_elem_of_In, list_elem_of_fmap. by exists (csv, t).
      * split; [done |]. rewrite Hm. discriminate.
  - unfold files_and_tables. cbn [map concat fst snd].
    rewrite !replace_count_app.
    repeat match goal with
           | |- context [replace_count (item_calls fs ?c ?t)] =>
               let H := fresh "H" in
               pose proof (item_calls_replace_count fs c t) as H;
               simpl in H;
               generalize dependent (replace_count (item_calls fs c t)); intros
           end.
    unfold replace_count. simpl. lia.
Qed.

Lemma length_zip_with_methods t dtype (ms : list if_exists_mode) (chunks : list DataFrame) :
  length ms = length chunks ->
  length (zip_with (fun m ch => mkCall t m dtype (coerce_chunk t ch)) ms chunks) =
  length chunks.
Proof.
  revert ms. induction chunks as [| ch rest IH]; intros [| m ms]; simpl;
    try discriminate; auto.
Qed.

(** For a file the reader opens, whatever chunks it yields, whatever the
    sink answers and however the reading ends, the log of a dataset
    counts every chunk the reader yields as attempted, counts as failed
    exactly the chunks whose write the sink refused, and [to_sql] is
    called exactly once per chunk. *)
Theorem load_item_accounts_for_every_chunk fs sink csv t r s :
  open_reader fs csv t = inr r ->
  let n := length (reader_chunks r) in
  let s' := fst (load_item fs sink csv t s) in
  chunks_attempted t (stdout s') = chunks_attempted t (stdout s) + n /\
  chunks_failed t (stdout s') =
    chunks_failed t (stdout s) +
    length (List.filter (fun j => negb (is_Written (sink t j))) (seq 1 n)) /\
  length (sink_calls s') = length (sink_calls s) + n.
Proof.
  intros Hr n s'.
  pose proof (load_item_stdout fs sink csv t s) as Hout.
  pose proof (load_item_calls fs sink csv t s) as Hcalls.
  fold s' in Hout, Hcalls. unfold item_log in Hout. rewrite Hr in Hout.
  fold n in Hout.
  set (final := match reader_fault r with
                | Some e => handler_line csv t e
                | None => FinishedLoading t
                end) in Hout.
  assert (chunks_attempted t [final] = 0 /\ chunks_failed t [final] = 0) as [Ha Hf].
  { unfold final, handler_line. destruct (reader_fault r) as [e |]; [| done].
    by destruct (is_EmptyDataError e). }
  change (Loading (path_join data_lake_dir csv) t ::
          map (chunk_line sink t) (seq 1 n) ++ [final])
    with ([Loading (path_join data_lake_dir csv) t] ++
          map (chunk_line sink t) (seq 1 n) ++ [final]) in Hout.
  split; [| split].
  - rewrite Hout, !chunks_attempted_app, chunks_attempted_chunk_lines, length_seq, Ha.
    change (chunks_attempted t [Loading (path_join data_lake_dir csv) t]) with 0. lia.
  - rewrite Hout, !chunks_failed_app, chunks_failed_chunk_lines, Hf.
    change (chunks_failed t [Loading (path_join data_lake_dir csv) t]) with 0. lia.
  - rewrite Hcalls, length_app. f_equal.
    rewrite <- (length_map call_frame), (item_calls_frames fs csv t _ Hr).
    by rewrite length_map.
Qed.

Lemma load_item_accounts_for_every_chunk_witness :
  chunks_attempted "individuals"
    (stdout (fst (load_item three_chunk_lake second_write_fails "individuals.csv"
                            "individuals" previous_state))) = 3 /\
  chunks_failed "individuals"
    (stdout (fst (load_item three_chunk_lake second_write_fails "individuals.csv"
                            "individuals" previous_state))) = 1 /\
  length (sink_calls (fst (load_item three_chunk_lake second_write_fails
                                     "individuals.csv" "individuals"
                                     previous_state))) = 3.
Proof.
  pose proof (load_item_accounts_for_every_chunk three_chunk_lake second_write_fails
                "individuals.csv" "individuals"
                (mkReader (read_chunks chunksize (str_dtype "individuals")
                             ["individual_id"]
                             (repeat ["7"] (S (chunksize + chunksize)))) None)
                previous_state eq_refl) as H.
  cbv zeta in H. destruct H as (Ha & Hf & Hc).
  rewrite Ha, Hf, Hc. vm_compute. repeat split.
Defined.

(** ** What a run stores, field by field *)

Lemma coerce_chunk_other t chunk :
  t <> "relationships" -> coerce_chunk t chunk = chunk.
Proof.
  intros Hne. unfold coerce_chunk.
  by destruct (String.eqb_spec t "relationships").
Qed.

Lemma stored_rows_other t chunks :
  t <> "relationships" ->
  concat (map (stored_rows t) chunks) =
  map (map sql_value) (concat (map rows chunks)).
Proof.
  intros Hne. induction chunks as [| ch rest IH]; [reflexivity |].
  cbn [map concat]. rewrite map_app, IH. f_equal.
  unfold stored_rows. by rewrite coerce_chunk_other.
Qed.

Lemma str_dtype_other t : t <> "relationships" -> str_dtype t = [].
Proof.
  intros Hne. unfold str_dtype. by destruct (String.eqb_spec t "relationships").
Qed.

Lemma stored_field_relationships col field :
  sql_value (coerced_cell col (parse_field (str_dtype "relationships") col field)) =
  stored_field "relationships" col field.
Proof.
  unfold stored_field, parse_field, coerced_cell.
  destruct (mem_string field STR_NA_VALUES).
  - by destruct (String.eqb col "father_id" || String.eqb col "mother_id").
  - destruct (mem_string col (str_dtype "relationships"));
      by rewrite andb_false_r.
Qed.

Lemma stored_field_other t col field :
  t <> "relationships" ->
  sql_value (parse_field (str_dtype t) col field) = stored_field t col field.
Proof.
  intros Hne. unfold stored_field, parse_field. rewrite (str_dtype_other t Hne).
  by destruct (mem_string field STR_NA_VALUES).
Qed.

(** The rows the chunks of a file put in the sink when every write
    succeeds: one per record, in order, each field stored as
    [stored_field] tells. *)
Lemma stored_rows_of_file t header records :
  exists new,
    concat (map (stored_rows t) (read_chunks chunksize (str_dtype t) header records)) = new /\
    length new = length records /\
    forall i record j col,
      records !! i = Some record ->
      header !! j = Some col ->
      exists row, new !! i = Some row /\
                  row !! j = Some (stored_field t col (nth j record "")).
Proof.
  eexists. split; [reflexivity |].
  destruct (decide (t = "relationships")) as [-> | Hne].
  - rewrite (stored_rows_relationships header) by apply read_chunks_columns.
    rewrite read_chunks_rows by apply chunksize_pos. rewrite map_map.
    split; [by rewrite length_map |].
    intros i record j col Hrec Hcol. eexists.
    split; [by rewrite list_lookup_fmap, Hrec |].
    rewrite list_lookup_fmap.
    rewrite (coerce_row_lookup header _ j col _ Hcol
               (parse_record_lookup _ header record j col Hcol)).
    cbn [fmap option_fmap option_map]. f_equal. apply stored_field_relationships.
  - rewrite stored_rows_other by done.
    rewrite read_chunks_rows by apply chunksize_pos. rewrite map_map.
    split; [by rewrite length_map |].
    intros i record j col Hrec Hcol. eexists.
    split; [by rewrite list_lookup_fmap, Hrec |].
    rewrite list_lookup_fmap, (parse_record_lookup _ header record j col Hcol).
    cbn [fmap option_fmap option_map]. f_equal. by apply stored_field_other.
Qed.

Lemma stored_field_stores t col field : stores t col field (stored_field t col field).
Proof.
  unfold stores, stored_field.
  destruct (mem_string field STR_NA_VALUES); [reflexivity |].
  destruct (mem_string col (str_dtype t)); [reflexivity | discriminate].
Qed.

(** After a run that reads the file of a configured table to its end,
    no record of it having more fields than the header, and whose writes
    to the table succeed, the table ends with one row per record of the
    file, in the order of the file; for relationships these are all its
    rows, elsewhere they follow the rows the table held.  In every such
    row a missing field is NULL, a field of individual_id, father_id or
    mother_id of relationships is the field's text, character for
    character, and any other field is a value that is not NULL. *)
Theorem run_stores_each_record_once fs sink s csv t header records :
  In (csv, t) files_and_tables ->
  fs (path_join data_lake_dir csv) = Csv header records None ->
  fits header records ->
  (forall n, sink t n = Written) ->
  exists new,
    table_rows (run fs sink s) t =
      (if String.eqb t "relationships" then [] else table_rows s t) ++ new /\
    length new = length records /\
    forall i record j col,
      records !! i = Some record ->
      header !! j = Some col ->
      exists row v, new !! i = Some row /\
                    row !! j = Some v /\
                    stores t col (nth j record "") v.
Proof.
  intros Hin Hfs _ Hok.
  destruct (stored_rows_of_file t header records) as (new & Hnew & Hlen & Hcells).
  exists new. split; [| split; [done |]].
  - pose proof (open_reader_csv fs csv t header records Hfs) as Hr.
    destruct (String.eqb_spec t "relationships") as [-> | Hne].
    + simpl in Hin.
      assert (csv = "relationships.csv") as ->.
      { repeat (destruct Hin as [Heq | Hin]; [by inversion Heq |]). destruct Hin. }
      unfold table_rows.
      rewrite (run_relationships_table fs sink s header records Hfs)
        by (intros e; by rewrite Hok).
      cbn [trows app]. rewrite written_rows_healthy by done. by rewrite Hnew.
    + rewrite run_table_rows.
      rewrite (for_items_rows_append fs sink files_and_tables s csv t)
        by (try apply files_and_tables_NoDup; try done; by apply list_elem_of_In).
      unfold loaded_rows. rewrite Hr. cbn [reader_chunks].
      rewrite written_rows_healthy by done. by rewrite Hnew.
  - intros i record j col Hrec Hcol.
    destruct (Hcells i record j col Hrec Hcol) as (row & Hrow & Hcell).
    exists row, (stored_field t col (nth j record "")).
    split; [done |]. split; [done |]. apply stored_field_stores.
Qed.

Lemma run_stores_each_record_once_witness :
  exists new,
    table_rows (run small_lake healthy_sink previous_state) "relationships" =
      [] ++ new /\
    length new = 2 /\
    (exists row, new !! 0 = Some row /\ row !! 1 = Some SqlNull) /\
    (exists row, new !! 1 = Some row /\ row !! 0 = Some (SqlText "4")).
Proof.
  destruct (run_stores_each_record_once small_lake healthy_sink previous_state
              "relationships.csv" "relationships"
              ["individual_id"; "father_id"; "mother_id"]
              [["3"; ""; "1"]; ["4"; "NA"; "2"]])
    as (new & Hrows & Hlen & Hcells).
  - simpl. tauto.
  - reflexivity.
  - repeat constructor.
  - reflexivity.
  - exists new. split; [exact Hrows |]. split; [exact Hlen |]. split.
    + destruct (Hcells 0 ["3"; ""; "1"] 1 "father_id" eq_refl eq_refl)
        as (row & v & Hrow & Hv & Hst).
      exists row. split; [exact Hrow |].
      change (v = SqlNull) in Hst. by rewrite <- Hst.
    + destruct (Hcells 1 ["4"; "NA"; "2"] 0 "individual_id" eq_refl eq_refl)
        as (row & v & Hrow & Hv & Hst).
      exists row. split; [exact Hrow |].
      change (v = SqlText "4") in Hst. by rewrite <- Hst.
Defined.

(** ** More on the coercion and on the chunks *)

Lemma where_notna_row_idem col cols row :
  where_notna_row col cols (where_notna_row col cols row) = where_notna_row col cols row.
Proof.
  revert row. induction cols as [| c cols IH]; intros [| v row]; simpl; try reflexivity.
  rewrite IH. f_equal. destruct (String.eqb c col); [| reflexivity].
  by destruct v.
Qed.

Lemma where_notna_row_comm col1 col2 cols row :
  where_notna_row col1 cols (where_notna_row col2 cols row) =
  where_notna_row col2 cols (where_notna_row col1 cols row).
Proof.
  revert row. induction cols as [| c cols IH]; intros [| v row]; simpl; try reflexivity.
  rewrite IH. f_equal.
  destruct (String.eqb c col1), (String.eqb c col2), v; reflexivity.
Qed.

Lemma coerce_row_idem cols row :
  coerce_row cols (coerce_row cols row) = coerce_row cols row.
Proof.
  unfold coerce_row, normalize_row.
  destruct (mem_string "mother_id" cols), (mem_string "father_id" cols);
    rewrite ?where_notna_row_idem; try reflexivity.
  rewrite (where_notna_row_comm "father_id" "mother_id").
  by rewrite !where_notna_row_idem.
Qed.

(** Coercing a chunk that has been coerced changes nothing, for every
    table. *)
Theorem coerce_chunk_is_idempotent t chunk :
  coerce_chunk t (coerce_chunk t chunk) = coerce_chunk t chunk.
Proof.
  destruct (decide (t = "relationships")) as [-> | Hne].
  - assert (rows (coerce_chunk "relationships" (coerce_chunk "relationships" chunk)) =
            rows (coerce_chunk "relationships" chunk)) as Hrows.
    { rewrite (coerce_chunk_rows (coerce_chunk "relationships" chunk)).
      rewrite coerce_chunk_columns, (coerce_chunk_rows chunk), map_map.
      apply map_ext. intros row. apply coerce_row_idem. }
    pose proof (coerce_chunk_columns "relationships"
                  (coerce_chunk "relationships" chunk)) as Hcols.
    destruct (coerce_chunk "relationships" (coerce_chunk "relationships" chunk)),
      (coerce_chunk "relationships" chunk).
    cbn in *. by subst.
  - by rewrite !coerce_chunk_other.
Qed.

(** What the sink stores for a chunk of relationships does not depend
    on the marker the coercion leaves in a missing cell: every cell is
    stored as the value the reader gave it would be, and it is NULL
    exactly when that value is missing. *)
Theorem stored_rows_do_not_depend_on_the_coercion chunk i row j col v :
  rows chunk !! i = Some row ->
  columns chunk !! j = Some col ->
  row !! j = Some v ->
  exists stored,
    stored_rows "relationships" chunk !! i = Some stored /\
    stored !! j = Some (sql_value v) /\
    (stored !! j = Some SqlNull <-> notna v = false).
Proof.
  intros Hrow Hcol Hv.
  destruct (coerce_chunk_lookup chunk i row Hrow) as (row' & Hrow' & _ & Hcells).
  exists (map sql_value row').
  assert (map sql_value row' !! j = Some (sql_value v)) as Hstored.
  { rewrite list_lookup_fmap, (Hcells j col v Hcol Hv).
    cbn [fmap option_fmap option_map]. f_equal. unfold coerced_cell.
    destruct (String.eqb col "father_id" || String.eqb col "mother_id"), v;
      reflexivity. }
  split; [unfold stored_rows; by rewrite list_lookup_fmap, Hrow' |].
  split; [exact Hstored |]. rewrite Hstored.
  destruct v; simpl; split; congruence.
Qed.

Lemma stored_rows_do_not_depend_on_the_coercion_witness :
  exists stored,
    stored_rows "relationships" parents_chunk !! 0 = Some stored /\
    stored !! 1 = Some SqlNull.
Proof.
  destruct (stored_rows_do_not_depend_on_the_coercion parents_chunk 0
              [Str "3"; NaN; Str "1"] 1 "father_id" NaN eq_refl eq_refl eq_refl)
    as (stored & Hstored & Hcell & _).
  exists stored. split; [exact Hstored | exact Hcell].
Defined.




(** * Properties of the dashboard *)

(** ** Queries and plots *)

Lemma run_query_unfold L q u :
  run_query L q u =
  (mkSession (shown u ++ query_errors (read_sql_query L q)) (queries u ++ [q]),
   inr (query_frame (read_sql_query L q))).
Proof.
  unfold run_query, query_errors, query_frame, query_error.
  destruct (read_sql_query L q) as [e | df].
  - by destruct (is_SQLAlchemyError e).
  - cbn [shown]. by rewrite app_nil_r.
Qed.

Lemma safe_plot_unfold L plot_func title data u :
  safe_plot L plot_func title data u =
  (mkSession (shown u ++ [plot_element L plot_func title data]) (queries u), inr tt).
Proof.
  unfold safe_plot, plot_element, ui_try.
  by destruct (plotly L plot_func title data).
Qed.

Lemma sample_tables_unfold L tables summary u :
  sample_tables L tables summary u =
  (mkSession
     (shown u ++
      concat (map (fun t => query_errors (read_sql_query L (sample_query t 100))) tables))
     (queries u ++ map (fun t => sample_query t 100) tables),
   inr (summary ++
        map (fun t => (t, length (rows (query_frame
                                          (read_sql_query L (sample_query t 100))))))
            tables)).
Proof.
  revert summary u. induction tables as [| tbl tables IH]; intros summary u.
  - simpl. unfold ui_ret. rewrite !app_nil_r. by destruct u.
  - cbn [sample_tables]. unfold ui_bind, load_table_sample.
    fold (sample_query tbl 100). rewrite run_query_unfold, IH.
    cbn [shown queries map concat]. by rewrite <- !app_assoc.
Qed.

(** The overview always completes.  It sends one query per table of its
    list, each limited to 100 rows, in the order of the list, and none on
    snps; the summary it draws has one row per table with the number of
    rows the database returned, and 0 for a table whose query failed,
    whose error is drawn above the summary. *)
Theorem dashboard_overview_counts_every_table L u :
  let answer t := read_sql_query L (sample_query t 100) in
  let summary_df :=
    summary_frame (map (fun t => (t, length (rows (query_frame (answer t)))))
                       dashboard_tables) in
  dashboard_overview L u =
  (mkSession
     (shown u ++
      [ st_title "Genetic Data Lake Dashboard";
        st_markdown "### Overview";
        st_markdown "This dashboard provides a comprehensive view of synthetic genetic, health, and lifestyle data." ] ++
      concat (map (fun t => query_errors (answer t)) dashboard_tables) ++
      [ st_markdown "#### Table Summary (Sampled Rows)";
        st_dataframe summary_df;
        plot_element L "bar" "Sample Row Counts per Table" summary_df;
        st_info "Caching and database indexes are used to optimize performance." ])
     (queries u ++ map (fun t => sample_query t 100) dashboard_tables),
   inr tt) /\
  length (rows summary_df) = 9 /\
  ~ In (sample_query "snps" 100) (map (fun t => sample_query t 100) dashboard_tables).
Proof.
  intros answer summary_df. split; [| split].
  - unfold dashboard_overview, ui_bind, draw.
    rewrite sample_tables_unfold. cbn [shown queries app].
    rewrite safe_plot_unfold. cbn [shown queries].
    fold summary_df. f_equal. f_equal. rewrite <- !app_assoc. reflexivity.
  - reflexivity.
  - vm_compute. intros H. repeat (destruct H as [H | H]; [discriminate H |]). exact H.
Qed.

(** ** Pages that cannot fail *)

Lemma never_raises_ret {A : Type} (a : A) : never_raises (ui_ret a).
Proof. intros u. by exists a. Qed.

Lemma never_raises_draw e : never_raises (draw e).
Proof. intros u. by exists tt. Qed.

Lemma never_raises_bind {A B : Type} (m : UI A) (k : A -> UI B) :
  never_raises m -> (forall a, never_raises (k a)) -> never_raises (ui_bind m k).
Proof.
  intros Hm Hk u. unfold ui_bind.
  destruct (Hm u) as [a Ha]. destruct (m u) as [u' r]. cbn [snd] in Ha. subst r.
  apply Hk.
Qed.

Lemma never_raises_try {A : Type} (body : UI A) (handler : app_exn -> UI A) :
  (forall e, never_raises (handler e)) -> never_raises (ui_try body handler).
Proof.
  intros Hh u. unfold ui_try. destruct (body u) as [u' [e | a]]; [apply Hh |].
  by exists a.
Qed.

Lemma never_raises_run_query L q : never_raises (run_query L q).
Proof. intros u. rewrite run_query_unfold. eauto. Qed.

Lemma never_raises_safe_plot L plot_func title data :
  never_raises (safe_plot L plot_func title data).
Proof. intros u. rewrite safe_plot_unfold. eauto. Qed.

Lemma never_raises_sample_tables L tables summary :
  never_raises (sample_tables L tables summary).
Proof. intros u. rewrite sample_tables_unfold. eauto. Qed.

Ltac never_raises_step :=
  match goal with
  | |- never_raises (ui_bind _ _) => apply never_raises_bind; [| intros ?]
  | |- never_raises (ui_try _ _) => apply never_raises_try; intros ?
  | |- never_raises (draw _) => apply never_raises_draw
  | |- never_raises (ui_ret _) => apply never_raises_ret
  | |- never_raises (load_table_full _ _) => apply never_raises_run_query
  | |- never_raises (load_table_sample _ _ _) => apply never_raises_run_query
  | |- never_raises (safe_plot _ _ _ _) => apply never_raises_safe_plot
  | |- never_raises (sample_tables _ _ _) => apply never_raises_sample_tables
  | |- never_raises (if ?b then _ else _) => destruct b
  end.


(** ** Pages that can fail *)

Lemma index_of_spec col cols :
  match index_of col cols with
  | Some j => cols !! j = Some col
  | None => ~ In col cols
  end.
Proof.
  induction cols as [| c cols IH]; [simpl; tauto |].
  cbn [index_of]. destruct (String.eqb_spec c col) as [-> | Hne]; [reflexivity |].
  destruct (index_of col cols); cbn [fmap option_fmap option_map]; [exact IH |].
  intros [Heq | Hin]; [done | by apply IH].
Qed.

Lemma ui_bind_returns {A B : Type} (m : UI A) (k : A -> UI B) u u' a :
  m u = (u', inr a) -> ui_bind m k u = k a u'.
Proof. intros Hm. unfold ui_bind. by rewrite Hm. Qed.

Lemma ui_bind_raises {A B : Type} (m : UI A) (k : A -> UI B) u u' e :
  m u = (u', inl e) -> ui_bind m k u = (u', inl e).
Proof. intros Hm. unfold ui_bind. by rewrite Hm. Qed.

Lemma getitem_found df col u :
  In col (columns df) -> exists values, getitem df col u = (u, inr values).
Proof.
  intros Hin. unfold getitem. pose proof (index_of_spec col (columns df)) as Hspec.
  destruct (index_of col (columns df)); [by eexists | contradiction].
Qed.

Lemma getitem_missing df col u :
  ~ In col (columns df) -> getitem df col u = (u, inl (KeyError col)).
Proof.
  intros Hnotin. unfold getitem. pose proof (index_of_spec col (columns df)) as Hspec.
  destruct (index_of col (columns df)) as [j |]; [| reflexivity].
  exfalso. apply Hnotin. apply list_elem_of_In. by eapply list_elem_of_lookup_2.
Qed.

Lemma query_frame_not_empty answer :
  df_empty (query_frame answer) = false -> query_errors answer = [].
Proof. by destruct answer. Qed.

(** The genders offered in the sidebar: this step is protected and
    leaves the session as it is. *)
Lemma genders_step df u :
  exists genders,
    ui_try (ui_bind (getitem df "gender")
                    (fun gender => ui_ret (unique (dropna gender))))
           (fun _ => ui_ret []) u = (u, inr genders).
Proof.
  unfold ui_try, ui_bind, getitem.
  destruct (index_of "gender" (columns df)); by eexists.
Qed.

(** The individuals page.  With no table, no row or a failed query it
    draws its warning and returns.  With rows it needs the gender column:
    the first read of the column is protected, the one that filters the
    rows is not, so without the column the page stops with [KeyError]
    after its heading; with the column it always runs to its end. *)
Theorem individuals_page_needs_the_gender_column L u :
  let answer := read_sql_query L (full_query "individuals") in
  let df := query_frame answer in
  (df_empty df = true ->
   individuals_page L u =
   (mkSession (shown u ++ st_title "Individuals" :: query_errors answer ++
                          [st_warning "No individual data available."])
              (queries u ++ [full_query "individuals"]),
    inr tt)) /\
  (df_empty df = false ->
   ~ In "gender" (columns df) ->
   individuals_page L u =
   (mkSession (shown u ++ [st_title "Individuals"; st_markdown "### Demographics"])
              (queries u ++ [full_query "individuals"]),
    inl (KeyError "gender"))) /\
  (df_empty df = false ->
   In "gender" (columns df) ->
   snd (individuals_page L u) = inr tt).
Proof.
  intros answer df.
  assert (forall k : DataFrame -> UI unit,
            ui_bind (draw (st_title "Individuals"))
                    (fun _ => ui_bind (load_table_full L "individuals") k) u =
            k df (mkSession (shown u ++ st_title "Individuals" :: query_errors answer)
                            (queries u ++ [full_query "individuals"]))) as Hstart.
  { intros k. unfold ui_bind at 1. unfold draw at 1. unfold ui_bind, load_table_full.
    rewrite run_query_unfold. cbn [shown queries]. fold answer df.
    by rewrite <- app_assoc. }
  unfold individuals_page. rewrite Hstart. clear Hstart.
  split; [| split].
  - intros Hempty. rewrite Hempty. unfold draw. cbn [shown queries].
    by rewrite <- !app_assoc.
  - intros Hrows Hmissing. rewrite Hrows, (query_frame_not_empty answer Hrows).
    set (u1 := mkSession _ _).
    rewrite (ui_bind_returns _ _ u1 _ tt eq_refl).
    destruct (genders_step df (fst (draw (st_markdown "### Demographics") u1)))
      as [genders Hgenders].
    rewrite (ui_bind_returns _ _ _ _ genders Hgenders).
    rewrite (ui_bind_raises _ _ _ _ _ (getitem_missing df "gender" _ Hmissing)).
    unfold u1. cbn [draw fst shown queries]. by rewrite <- app_assoc.
  - intros Hrows Hgender. rewrite Hrows.
    set (u1 := mkSession _ _).
    rewrite (ui_bind_returns _ _ u1 _ tt eq_refl).
    destruct (genders_step df (fst (draw (st_markdown "### Demographics") u1)))
      as [genders Hgenders].
    rewrite (ui_bind_returns _ _ _ _ genders Hgenders).
    destruct (getitem_found df "gender"
                (fst (draw (st_markdown "### Demographics") u1)) Hgender)
      as [gender Hcol].
    rewrite (ui_bind_returns _ _ _ _ gender Hcol).
    match goal with
    | |- snd (?m ?u0) = inr tt =>
        assert (never_raises m) as Hnr by (repeat never_raises_step);
        destruct (Hnr u0) as [[] Hres]; exact Hres
    end.
Qed.

Lemma individuals_page_needs_the_gender_column_witness :
  individuals_page (first_option_libs no_gender) (mkSession [] []) =
  (mkSession [st_title "Individuals"; st_markdown "### Demographics"]
             [full_query "individuals"],
   inl (KeyError "gender")).
Proof.
  refine (proj1 (proj2 (individuals_page_needs_the_gender_column
            (first_option_libs no_gender) (mkSession [] []))) eq_refl _).
  simpl. intros [H | []]. discriminate H.
Defined.

Lemma getitem_values df col u :
  In col (columns df) -> getitem df col u = (u, inr (column_values df col)).
Proof.
  intros Hin. unfold getitem, column_values.
  pose proof (index_of_spec col (columns df)) as Hspec.
  destruct (index_of col (columns df)); [reflexivity | contradiction].
Qed.

(** The advanced page.  With no table, no row or a failed query it draws
    its warning and returns.  With rows, neither the read of the
    chromosome column nor the sorting of its values is protected: without
    the column the page stops with [KeyError]; with it, the page stops
    exactly when the sorting raises, and with what it raises. *)
Theorem advanced_genetics_page_needs_sortable_chromosomes L u :
  let answer := read_sql_query L (full_query "snp_definitions") in
  let df := query_frame answer in
  (df_empty df = true ->
   advanced_genetics_page L u =
   (mkSession (shown u ++ st_title "Advanced Genetic Analysis" :: query_errors answer ++
                 [st_warning "No SNP definition data available for advanced analysis."])
              (queries u ++ [full_query "snp_definitions"]),
    inr tt)) /\
  (df_empty df = false ->
   ~ In "chromosome" (columns df) ->
   advanced_genetics_page L u =
   (mkSession (shown u ++ [st_title "Advanced Genetic Analysis"])
              (queries u ++ [full_query "snp_definitions"]),
    inl (KeyError "chromosome"))) /\
  (df_empty df = false ->
   In "chromosome" (columns df) ->
   snd (advanced_genetics_page L u) =
   match sorted L (unique (dropna (column_values df "chromosome"))) with
   | inl e => inl e
   | inr _ => inr tt
   end).
Proof.
  intros answer df.
  assert (forall k : DataFrame -> UI unit,
            ui_bind (draw (st_title "Advanced Genetic Analysis"))
                    (fun _ => ui_bind (load_table_full L "snp_definitions") k) u =
            k df (mkSession (shown u ++ st_title "Advanced Genetic Analysis" ::
                               query_errors answer)
                            (queries u ++ [full_query "snp_definitions"]))) as Hstart.
  { intros k. unfold ui_bind at 1. unfold draw at 1. unfold ui_bind, load_table_full.
    rewrite run_query_unfold. cbn [shown queries]. fold answer df.
    by rewrite <- app_assoc. }
  unfold advanced_genetics_page. rewrite Hstart. clear Hstart.
  split; [| split].
  - intros Hempty. rewrite Hempty. unfold draw. cbn [shown queries].
    by rewrite <- !app_assoc.
  - intros Hrows Hmissing. rewrite Hrows, (query_frame_not_empty answer Hrows).
    by rewrite (ui_bind_raises _ _ _ _ _ (getitem_missing df "chromosome" _ Hmissing)).
  - intros Hrows Hcol. rewrite Hrows.
    set (u1 := mkSession _ _).
    rewrite (ui_bind_returns _ _ _ _ _ (getitem_values df "chromosome" u1 Hcol)).
    destruct (sorted L (unique (dropna (column_values df "chromosome"))))
      as [e | chromosomes].
    + by rewrite (ui_bind_raises _ _ u1 u1 e eq_refl).
    + rewrite (ui_bind_returns _ _ u1 u1 chromosomes eq_refl).
      rewrite (ui_bind_returns _ _ _ _ _ (getitem_values df "chromosome" u1 Hcol)).
      match goal with
      | |- snd (?m ?u0) = inr tt =>
          assert (never_raises m) as Hnr by (repeat never_raises_step);
          destruct (Hnr u0) as [[] Hres]; exact Hres
      end.
Qed.

(** ** Pages on a table that gives nothing *)

(** The relationships, marriages and structural variants pages, on a
    table that is missing, unreadable or without rows: one query, the
    title, the error of the query if there is one, the warning, and
    nothing else: no table and no chart is drawn. *)
Theorem pages_warn_when_the_table_gives_nothing L u :
  (df_empty (query_frame (read_sql_query L (full_query "relationships"))) = true ->
   relationships_page L u =
   (mkSession (shown u ++ st_title "Family Relationships" ::
                 query_errors (read_sql_query L (full_query "relationships")) ++
                 [st_warning "No relationship data available."])
              (queries u ++ [full_query "relationships"]),
    inr tt)) /\
  (df_empty (query_frame (read_sql_query L (full_query "marriages"))) = true ->
   marriages_page L u =
   (mkSession (shown u ++ st_title "Marriages" ::
                 query_errors (read_sql_query L (full_query "marriages")) ++
                 [st_warning "No marriage data available."])
              (queries u ++ [full_query "marriages"]),
    inr tt)) /\
  (df_empty (query_frame (read_sql_query L (full_query "structural_variants"))) = true ->
   structural_variants_page L u =
   (mkSession (shown u ++ st_title "Structural Variants" ::
                 query_errors (read_sql_query L (full_query "structural_variants")) ++
                 [st_warning "No structural variant data available."])
              (queries u ++ [full_query "structural_variants"]),
    inr tt)).
Proof.
  repeat split; intros Hempty;
    [unfold relationships_page | unfold marriages_page | unfold structural_variants_page];
    unfold ui_bind at 1; unfold draw at 1; unfold ui_bind, load_table_full;
    rewrite run_query_unfold; fold (full_query "relationships");
    fold (full_query "marriages"); fold (full_query "structural_variants");
    rewrite Hempty; unfold draw; cbn [shown queries]; by rewrite <- !app_assoc.
Qed.

(** ** What every page draws and asks *)

Section Invariant.

Variable L : libs.
Variable Pe : element -> Prop.
Variable Pq : string -> Prop.

(** Elements other than tables are always admitted, tables when they
    have at most 200 rows; the queries of the lists are admitted, and so
    is the one of the detailed page. *)
Hypothesis Pe_other : forall e, (forall df, e <> st_dataframe df) -> Pe e.
Hypothesis Pe_frame : forall df, length (rows df) <= 200 -> Pe (st_dataframe df).
Hypothesis Pq_full : forall t, In t dashboard_tables -> Pq (full_query t).
Hypothesis Pq_sample : forall t n, In t dashboard_tables -> Pq (sample_query t n).
Hypothesis Pq_selected :
  Pq (full_query (format_value (Str <$> selectbox L "Select Table" dashboard_tables))).

Abbreviation ok := (session_ok Pe Pq).
Abbreviation anything := (fun _ => True).

Lemma spec_ret {A : Type} (a : A) : ui_spec ok (ui_ret a) anything.
Proof. intros u Hu. by split. Qed.

Lemma spec_raise {A : Type} (e : app_exn) : ui_spec ok (@ui_raise A e) anything.
Proof. intros u Hu. by split. Qed.

Lemma spec_lift {A : Type} (r : app_exn + A) : ui_spec ok (ui_lift r) anything.
Proof. destruct r; [apply spec_raise | apply spec_ret]. Qed.

Lemma spec_bind {A B : Type} (m : UI A) (k : A -> UI B) (P : A -> Prop) (Q : B -> Prop) :
  ui_spec ok m P -> (forall a, P a -> ui_spec ok (k a) Q) -> ui_spec ok (ui_bind m k) Q.
Proof.
  intros Hm Hk u Hu. unfold ui_bind.
  destruct (Hm u Hu) as [Hu' Ha]. destruct (m u) as [u' [e | a]]; cbn [fst snd] in *.
  - split; [exact Hu' | discriminate].
  - apply (Hk a (Ha a eq_refl) u' Hu').
Qed.

Lemma spec_try {A : Type} (body : UI A) (handler : app_exn -> UI A) (Q : A -> Prop) :
  ui_spec ok body Q -> (forall e, ui_spec ok (handler e) Q) ->
  ui_spec ok (ui_try body handler) Q.
Proof.
  intros Hb Hh u Hu. unfold ui_try.
  destruct (Hb u Hu) as [Hu' Ha]. destruct (body u) as [u' [e | a]]; cbn [fst snd] in *.
  - apply (Hh e u' Hu').
  - split; [exact Hu' | exact Ha].
Qed.

Lemma spec_draw e : Pe e -> ui_spec ok (draw e) anything.
Proof.
  intros He u [Hs Hq]. split; [| done]. split; [| exact Hq].
  cbn [draw fst shown]. apply Forall_app. by repeat constructor.
Qed.

Lemma spec_run_query q : Pq q -> ui_spec ok (run_query L q) anything.
Proof.
  intros Hq u [Hs Hqs]. rewrite run_query_unfold. split; [| done].
  split; cbn [fst shown queries]; apply Forall_app; split; try done.
  - unfold query_errors, query_error. destruct (read_sql_query L q) as [e |];
      [| constructor].
    repeat constructor. by destruct (is_SQLAlchemyError e); apply Pe_other.
  - by repeat constructor.
Qed.

Lemma spec_safe_plot plot_func title data :
  ui_spec ok (safe_plot L plot_func title data) anything.
Proof.
  intros u [Hs Hq]. rewrite safe_plot_unfold. split; [| done]. split; [| exact Hq].
  cbn [fst shown]. apply Forall_app. split; [done |]. repeat constructor.
  unfold plot_element. by destruct (plotly L plot_func title data); apply Pe_other.
Qed.

Lemma spec_getitem df col : ui_spec ok (getitem df col) anything.
Proof.
  unfold getitem. destruct (index_of col (columns df)); [apply spec_ret | apply spec_raise].
Qed.

Lemma spec_set_columns df names : ui_spec ok (set_columns df names) anything.
Proof.
  unfold set_columns. destruct (Nat.eqb _ _); [apply spec_ret | apply spec_raise].
Qed.

Lemma spec_sample_tables tables summary :
  Forall (fun t => In t dashboard_tables) tables ->
  ui_spec ok (sample_tables L tables summary)
          (fun r => length r = length summary + length tables).
Proof.
  intros Htables u [Hs Hq]. rewrite sample_tables_unfold. cbn [fst snd shown queries].
  split.
  - split; apply Forall_app; split; try done.
    + apply Forall_concat, Forall_map. eapply Forall_impl; [exact Htables |].
      intros t _. cbv beta. unfold query_errors, query_error.
      destruct (read_sql_query L (sample_query t 100)) as [e |]; [| constructor].
      repeat constructor. by destruct (is_SQLAlchemyError e); apply Pe_other.
    + apply Forall_map. eapply Forall_impl; [exact Htables |].
      intros t Ht. by apply Pq_sample.
  - intros r [= <-]. by rewrite length_app, length_map.
Qed.

Lemma length_df_head n df : length (rows (df_head n df)) <= n.
Proof. cbn [df_head rows]. rewrite length_take. lia. Qed.

Lemma Pe_head n df : n <= 200 -> Pe (st_dataframe (df_head n df)).
Proof. intros Hn. apply Pe_frame. pose proof (length_df_head n df). lia. Qed.

Ltac spec_step :=
  match goal with
  | |- ui_spec _ (ui_bind _ _) _ => eapply spec_bind; [| intros ? ?]
  | |- ui_spec _ (ui_try _ _) _ => apply spec_try; [| intros ?]
  | |- ui_spec _ (draw (st_dataframe (df_head _ _))) _ =>
      apply spec_draw, Pe_head; lia
  | |- ui_spec _ (draw (st_dataframe _)) _ => apply spec_draw, Pe_frame
  | |- ui_spec _ (draw _) _ => apply spec_draw, Pe_other; discriminate
  | |- ui_spec _ (ui_ret _) _ => apply spec_ret
  | |- ui_spec _ (ui_lift _) _ => apply spec_lift
  | |- ui_spec _ (getitem _ _) _ => apply spec_getitem
  | |- ui_spec _ (set_columns _ _) _ => apply spec_set_columns
  | |- ui_spec _ (safe_plot _ _ _ _) _ => apply spec_safe_plot
  | |- ui_spec _ (load_table_full _ _) _ =>
      apply spec_run_query, Pq_full; simpl; tauto
  | |- ui_spec _ (load_table_sample _ _ _) _ =>
      apply spec_run_query, Pq_sample; simpl; tauto
  | |- ui_spec _ (if ?b then _ else _) _ => destruct b
  end.

Lemma dashboard_overview_ok : ui_spec ok (dashboard_overview L) anything.
Proof.
  unfold dashboard_overview.
  eapply spec_bind; [spec_step | intros _ _].
  eapply spec_bind; [spec_step | intros _ _].
  eapply spec_bind; [spec_step | intros _ _].
  eapply spec_bind.
  { apply (spec_sample_tables dashboard_tables []), Forall_forall.
    intros t Ht. by apply list_elem_of_In. }
  intros summary Hlen. cbv beta zeta in *.
  assert (length (rows (summary_frame summary)) <= 200) as Hrows.
  { cbn [summary_frame rows]. rewrite length_map, Hlen. simpl. lia. }
  eapply spec_bind; [spec_step | intros _ _].
  eapply spec_bind; [apply spec_draw, Pe_frame, Hrows | intros _ _].
  eapply spec_bind; [spec_step | intros _ _].
  spec_step.
Qed.

Lemma detailed_tables_page_ok : ui_spec ok (detailed_tables_page L) anything.
Proof.
  unfold detailed_tables_page. cbv zeta.
  eapply spec_bind; [spec_step | intros _ _].
  eapply spec_bind; [apply spec_run_query, Pq_selected |].
  intros df _. destruct (selectbox L "Select Table" dashboard_tables);
    [repeat spec_step | apply spec_raise].
Qed.

Lemma navigation_ok : ui_spec ok (navigation L) anything.
Proof.
  unfold navigation. cbv zeta. spec_step; [spec_step |].
  repeat match goal with
         | |- ui_spec _ (if ?b then _ else _) _ => destruct b
         end.
  - apply dashboard_overview_ok.
  - unfold individuals_page. repeat spec_step.
  - unfold health_lifestyle_page. repeat spec_step.
  - unfold genetics_page. cbv zeta. repeat spec_step.
  - unfold advanced_genetics_page. repeat spec_step.
  - unfold relationships_page. repeat spec_step.
  - unfold marriages_page. repeat spec_step.
  - unfold structural_variants_page. repeat spec_step.
  - apply detailed_tables_page_ok.
  - apply spec_ret.
Qed.

End Invariant.

(** Whatever page is selected, whatever the tables hold and whatever the
    libraries do, a table drawn on the page has at most 200 rows. *)
Theorem navigation_draws_at_most_200_rows L u :
  Forall (at_most_rows 200) (shown u) ->
  Forall (at_most_rows 200) (shown (fst (navigation L u))).
Proof.
  intros Hshown.
  destruct (navigation_ok L (at_most_rows 200) (fun _ => True)) with (u := u)
    as [[Hs _] _]; try done.
  - intros e He. destruct e; simpl; try done. by destruct (He data).
  - split; [done |]. apply Forall_true. done.
Qed.

Lemma navigation_draws_at_most_200_rows_witness :
  Forall (at_most_rows 200)
         (shown (fst (navigation (first_option_libs no_gender) (mkSession [] [])))).
Proof.
  apply (navigation_draws_at_most_200_rows (first_option_libs no_gender)
           (mkSession [] [])).
  constructor.
Defined.

Lemma dashboard_tables_are_loaded t :
  In t dashboard_tables -> In t (map snd files_and_tables) /\ t <> "snps".
Proof.
  simpl. intros Hin.
  repeat (destruct Hin as [<- | Hin]; [split; [tauto | discriminate] |]).
  destruct Hin.
Qed.

(** When the select boxes return one of their options, every query of a
    run, whatever page is selected, reads one table, whole or up to a
    limit, and that table is a destination of the loader other than
    snps. *)
Theorem navigation_reads_only_loaded_tables L u :
  (forall label options,
     options <> [] ->
     exists choice, selectbox L label options = Some choice /\ In choice options) ->
  Forall reads_a_loaded_table (queries u) ->
  Forall reads_a_loaded_table (queries (fst (navigation L u))).
Proof.
  intros Hselect Hqueries.
  destruct (navigation_ok L (fun _ => True) reads_a_loaded_table) with (u := u)
    as [[_ Hq] _]; try done.
  - intros t Ht. destruct (dashboard_tables_are_loaded t Ht) as [Hin Hne].
    exists t. repeat split; try done. by left.
  - intros t n Ht. destruct (dashboard_tables_are_loaded t Ht) as [Hin Hne].
    exists t. repeat split; try done. right. by exists n.
  - destruct (Hselect "Select Table" dashboard_tables) as (choice & -> & Hin);
      [discriminate |].
    destruct (dashboard_tables_are_loaded choice Hin) as [Hin' Hne].
    exists choice. repeat split; try done. by left.
  - split; [| done]. apply Forall_true. done.
Qed.

Lemma navigation_reads_only_loaded_tables_witness :
  Forall reads_a_loaded_table
         (queries (fst (navigation (first_option_libs no_tables) (mkSession [] [])))).
Proof.
  apply (navigation_reads_only_loaded_tables (first_option_libs no_tables)
           (mkSession [] [])).
  - intros label [| o options] Hne; [done |].
    exists o. split; [reflexivity | by left].
  - constructor.
Defined.
